(** * docker-api: the container module ([src/container.ts])

    A shallow embedding of the classes [Exec], [ExecManager], [ContainerFs],
    [Container] and of the default export (the container manager), with the
    JavaScript store they allocate in and write to, and the external
    transport ("the modem") as an oracle. *)

From stdpp Require Import gmap strings list fin_maps pretty.

Open Scope string_scope.
Open Scope list_scope.

(** ** Values and the store *)

Abbreviation loc := nat.

(** Runtime values.  Objects, arrays and streams live in the store and are
    held by reference.  Numbers are the integers (printed in decimal, as
    JavaScript prints the integers below 10^21). *)
Inductive value :=
| VUndefined
| VNull
| VBool (b : bool)
| VNum (n : Z)
| VStr (s : string)
| VRef (l : loc).

#[global] Instance value_eq_dec : EqDecision value.
Proof. solve_decision. Defined.

(** What a readable stream emits once listeners are attached.  A chunk is
    given by its text, that is by what [chunk.toString()] yields. *)
Inductive stream_event :=
| SData (chunk : string)
| SEnd.

(** The classes whose instances occur: those of this module ([CManager] is
    its anonymous default export), [Image] imported from [./image], and the
    [Modem] of [docker-modem]. *)
Inductive class :=
| CExec | CExecManager | CContainerFs | CContainer | CManager | CImage | CModem.

Inductive kind :=
| KPlain                                  (* an object literal or decoded JSON object *)
| KInstance (c : class)                   (* [new C(...)] *)
| KArray (elems : list value)
| KStream (events : list stream_event).

(** An object: what it is, and its own named data properties. *)
Record object := Obj { o_kind : kind; o_props : gmap string value }.

Abbreviation heap := (list object).

(** ** Call descriptors *)

Inductive http_method := GET | POST | PUT | DELETE | HEAD.

(** An entry of a [statusCodes] table: [true], or the reason string. *)
Inductive status := Accept | Reason (r : string).

(** The object literal [call] handed to [modem.dial].  A field the literal
    does not have is [None] ([false] for [isStream], which the transport
    only tests for truth). *)
Record call := Call {
  c_path : string;
  c_method : http_method;
  c_options : value;
  c_isStream : bool;
  c_hijack : option value;
  c_openStdin : option value;
  c_file : option value;
  c_statusCodes : gmap Z status
}.

(** ** The transport

    [modem.dial(call, cb)] calls [cb(err, data)] once.  The transport sees
    the descriptor and the store; the objects of its answer (an error
    object, a decoded body, a stream) are new ones, added to the store. *)
Record response := Response {
  r_err : value;
  r_data : value;
  r_fresh : list object
}.

Definition transport := call → heap → response.

(** One dial: the modem it was made on, the descriptor, and the store as
    the transport saw it. *)
Record dial_event := Dial {
  d_modem : value;
  d_call : call;
  d_heap : heap
}.

Record state := State { st_heap : heap; st_dials : list dial_event }.

(** ** A state and exception monad *)

(** Where a [TypeError] was thrown: in the method body (the call throws and
    returns no promise), in the promise executor (the promise is rejected
    with the [TypeError]), or in the transport's callback (nothing catches
    it and the promise is never settled). *)
Inductive site := InCall | InExecutor | InCallback.

Inductive res (A : Type) :=
| Val (a : A)
| Exn (s : site).
Arguments Val {A} a.
Arguments Exn {A} s.

Definition M (A : Type) := state → res A * state.

Definition ret {A} (a : A) : M A := fun st => (Val a, st).

Definition bind {A B} (m : M A) (f : A → M B) : M B :=
  fun st =>
    match m st with
    | (Val a, st') => f a st'
    | (Exn s, st') => (Exn s, st')
    end.

Definition throw {A} : M A := fun st => (Exn InCall, st).

(** Re-tags the exceptions of [m] with the place it runs in. *)
Definition at_site {A} (s : site) (m : M A) : M A :=
  fun st =>
    match m st with
    | (Exn _, st') => (Exn s, st')
    | r => r
    end.

Notation "x <- m ;; k" := (bind m (fun x => k))
  (at level 100, m at next level, right associativity).
Notation "'do' m ;; k" := (bind m (fun _ => k))
  (at level 100, m at next level, right associativity).

(** ** Primitive operations of the language *)

(** [ToBoolean]. *)
Definition truthy (v : value) : bool :=
  match v with
  | VUndefined | VNull => false
  | VBool b => b
  | VNum n => negb (n =? 0)%Z
  | VStr s => negb (String.eqb s "")
  | VRef _ => true
  end.

Definition join (sep : string) (l : list string) : string :=
  match l with
  | [] => ""
  | s :: l' => fold_left (fun acc x => acc +:+ sep +:+ x) l' s
  end.

(** [ToString], as a template literal applies it.  An array prints its
    elements joined by commas, [null] and [undefined] elements as the empty
    string, and an array met again inside itself as the empty string; any
    other object prints as [[object Object]]. *)
Fixpoint to_string_fuel (fuel : nat) (h : heap) (seen : list loc) (v : value) : string :=
  match v with
  | VUndefined => "undefined"
  | VNull => "null"
  | VBool true => "true"
  | VBool false => "false"
  | VNum n => pretty n
  | VStr s => s
  | VRef l =>
      match h !! l with
      | Some (Obj (KArray elems) _) =>
          match fuel with
          | O => ""
          | S fuel' =>
              if bool_decide (l ∈ seen) then ""
              else join ","
                     (map (fun e => match e with
                                    | VUndefined | VNull => ""
                                    | _ => to_string_fuel fuel' h (l :: seen) e
                                    end) elems)
          end
      | _ => "[object Object]"
      end
  end.

Definition to_string (h : heap) (v : value) : string :=
  to_string_fuel (S (length h)) h [] v.

(** [new], an object literal or an array literal: the next free location. *)
Definition alloc (o : object) : M value :=
  fun st => (Val (VRef (length (st_heap st))),
             State (st_heap st ++ [o]) (st_dials st)).

(** [v.name] for the property names this module reads ([id], [modem],
    [container], [Id], [path], [stream], [stdin], [hijack]): none of them
    is a property of a primitive, of an array or of a response stream
    unless it was put there.  Reading from [undefined] or [null] throws. *)
Definition get_prop (v : value) (name : string) : M value :=
  fun st =>
    match v with
    | VUndefined | VNull => (Exn InCall, st)
    | VRef l =>
        match st_heap st !! l with
        | Some o => (Val (default VUndefined (o_props o !! name)), st)
        | None => (Exn InCall, st)
        end
    | _ => (Val VUndefined, st)
    end.

(** [v.name = x] in strict mode: creates or overwrites the property of an
    object, throws on anything else. *)
Definition set_prop (v : value) (name : string) (x : value) : M unit :=
  fun st =>
    match v with
    | VRef l =>
        match st_heap st !! l with
        | Some o =>
            (Val (), State (<[l := Obj (o_kind o) (<[name := x]> (o_props o))]> (st_heap st))
                           (st_dials st))
        | None => (Exn InCall, st)
        end
    | _ => (Exn InCall, st)
    end.

(** A template literal's [${v}]. *)
Definition interpolate (v : value) : M string :=
  fun st => (Val (to_string (st_heap st) v), st).

(** The i-th argument of a call; a missing argument is [undefined]. *)
Definition arg (i : nat) (args : list value) : value := nth i args VUndefined.

(** A parameter declared [opts = {}]. *)
Definition default_obj (v : value) : M value :=
  match v with
  | VUndefined => alloc (Obj KPlain ∅)
  | _ => ret v
  end.

(** [containers.map] needs an array, [tarStream.on] a stream: anything else
    has no such method and the call throws. *)
Definition array_elems (v : value) : M (list value) :=
  fun st =>
    match v with
    | VRef l =>
        match st_heap st !! l with
        | Some (Obj (KArray elems) _) => (Val elems, st)
        | _ => (Exn InCall, st)
        end
    | _ => (Exn InCall, st)
    end.

Definition stream_events (v : value) : M (list stream_event) :=
  fun st =>
    match v with
    | VRef l =>
        match st_heap st !! l with
        | Some (Obj (KStream events) _) => (Val events, st)
        | _ => (Exn InCall, st)
        end
    | _ => (Exn InCall, st)
    end.

(** [modem.dial]: only a [Modem] has the method. *)
Definition dial_method (modem : value) : M unit :=
  fun st =>
    match modem with
    | VRef l =>
        match st_heap st !! l with
        | Some (Obj (KInstance CModem) _) => (Val (), st)
        | _ => (Exn InCall, st)
        end
    | _ => (Exn InCall, st)
    end.

(** [Array.prototype.map] with an effectful callback, left to right. *)
Fixpoint mapM {A B} (f : A → M B) (l : list A) : M (list B) :=
  match l with
  | [] => ret []
  | a :: l' => b <- f a ;; bs <- mapM f l' ;; ret (b :: bs)
  end.

(** [s.replace(pat, '')] with a string pattern: the first occurrence of
    [pat] in [s] is removed. *)
Fixpoint strip_prefix (pat s : string) : option string :=
  match pat, s with
  | EmptyString, _ => Some s
  | String a pat', String b s' =>
      if Ascii.eqb a b then strip_prefix pat' s' else None
  | String _ _, EmptyString => None
  end.

Fixpoint remove_first (pat s : string) : string :=
  match strip_prefix pat s with
  | Some rest => rest
  | None =>
      match s with
      | EmptyString => EmptyString
      | String c s' => String c (remove_first pat s')
      end
  end.

(** [v.replace('sha256:', '')]: only a string has the method. *)
Definition replace_sha256 (v : value) : M value :=
  match v with
  | VStr s => ret (VStr (remove_first "sha256:" s))
  | _ => throw
  end.

(** ** Promises *)

Inductive outcome :=
| Resolved (v : value)
| Rejected (e : value)
| Pending.

(** The listeners [export] attaches to the stream: ['data'] pushes the
    chunk's text on [res], ['end'] resolves with [res.join('')].  A promise
    settles once; a stream that never ends leaves it pending. *)
Fixpoint consume (events : list stream_event) (res : list string) : outcome :=
  match events with
  | [] => Pending
  | SData chunk :: rest => consume rest (res ++ [chunk])
  | SEnd :: _ => Resolved (VStr (join "" res))
  end.

(** ** Constructors *)

(** [class ContainerFs]: [constructor(modem, container)]. *)
Definition new_ContainerFs (modem container : value) : M value :=
  this <- alloc (Obj (KInstance CContainerFs) ∅) ;;
  do set_prop this "modem" modem ;;
  do set_prop this "container" container ;;
  ret this.

(** [class ExecManager]: [constructor(modem, container)]. *)
Definition new_ExecManager (modem container : value) : M value :=
  this <- alloc (Obj (KInstance CExecManager) ∅) ;;
  do set_prop this "modem" modem ;;
  do set_prop this "container" container ;;
  ret this.

(** [class Exec]: the initialiser [data = {}], then
    [constructor(modem, container, id)]. *)
Definition new_Exec (modem container id : value) : M value :=
  this <- alloc (Obj (KInstance CExec) ∅) ;;
  d <- alloc (Obj KPlain ∅) ;;
  do set_prop this "data" d ;;
  do set_prop this "modem" modem ;;
  do set_prop this "container" container ;;
  do set_prop this "id" id ;;
  ret this.

(** [class Container]: the initialiser [Warnings = []], then
    [constructor(modem, id)].  [data] is declared and left unset. *)
Definition new_Container (modem id : value) : M value :=
  this <- alloc (Obj (KInstance CContainer) ∅) ;;
  w <- alloc (Obj (KArray []) ∅) ;;
  do set_prop this "Warnings" w ;;
  do set_prop this "modem" modem ;;
  do set_prop this "id" id ;;
  m <- get_prop this "modem" ;;
  fs <- new_ContainerFs m this ;;
  do set_prop this "fs" fs ;;
  m <- get_prop this "modem" ;;
  ex <- new_ExecManager m this ;;
  do set_prop this "exec" ex ;;
  ret this.

(** Modelled from the spec: the class [Image] of [./image], whose source is
    not part of this module.  A resource handle wraps an identifier and
    the transport handle. *)
Definition new_Image (modem id : value) : M value :=
  this <- alloc (Obj (KInstance CImage) ∅) ;;
  do set_prop this "modem" modem ;;
  do set_prop this "id" id ;;
  ret this.

(** ** The operations *)

Section Operations.

(** The behaviour of the transport behind every modem. *)
Variable t : transport.

Local Open Scope Z_scope.

(** A descriptor with the four fields most literals have. *)
Definition descriptor (path : string) (method : http_method) (options : value)
    (statusCodes : gmap Z status) : call :=
  Call path method options false None None None statusCodes.

(** [new Promise((resolve, reject) => { this.modem.dial(call, cb) })]:
    the executor reads [this.modem], takes its [dial] method and dials; the
    transport then answers through [cb]. *)
Definition dial (this : value) (c : call) (cb : value → value → M outcome) : M outcome :=
  modem <- at_site InExecutor (get_prop this "modem") ;;
  do at_site InExecutor (dial_method modem) ;;
  r <- (fun st =>
          let r := t c (st_heap st) in
          (Val r, State (st_heap st ++ r_fresh r)
                        (st_dials st ++ [Dial modem c (st_heap st)]))) ;;
  at_site InCallback (cb (r_err r) (r_data r)).

(** *** class Exec *)

Definition Exec_create (this : value) (args : list value) : M outcome :=
  let opts := arg 0 args in
  container <- get_prop this "container" ;;
  id <- get_prop container "id" ;;
  sid <- interpolate id ;;
  let call := descriptor ("/containers/" +:+ sid +:+ "/exec?") POST opts
    {[ 200 := Accept; 201 := Accept; 404 := Reason "no such container";
       409 := Reason "container is paused"; 500 := Reason "server error" ]} in
  dial this call (fun err conf =>
    if truthy err then ret (Rejected err) else
    m <- get_prop this "modem" ;;
    c <- get_prop this "container" ;;
    cid <- get_prop conf "Id" ;;
    exec <- new_Exec m c cid ;;
    do set_prop exec "data" conf ;;
    ret (Resolved exec)).

Definition Exec_start (this : value) (args : list value) : M outcome :=
  opts <- default_obj (arg 0 args) ;;
  id <- get_prop this "id" ;;
  sid <- interpolate id ;;
  hijack <- get_prop opts "hijack" ;;
  stdin <- get_prop opts "stdin" ;;
  let call := Call ("/exec/" +:+ sid +:+ "/start?") POST opts true
    (Some hijack) (Some stdin) None
    {[ 200 := Accept; 404 := Reason "no such exec instance";
       409 := Reason "container is paused" ]} in
  dial this call (fun err stream =>
    if truthy err then ret (Rejected err) else ret (Resolved stream)).

Definition Exec_resize (this : value) (args : list value) : M outcome :=
  let opts := arg 0 args in
  id <- get_prop this "id" ;;
  sid <- interpolate id ;;
  let call := descriptor ("/exec/" +:+ sid +:+ "/resize?") POST opts
    {[ 201 := Accept; 404 := Reason "no such exec instance" ]} in
  dial this call (fun err _ =>
    if truthy err then ret (Rejected err) else ret (Resolved VNull)).

Definition Exec_status (this : value) (args : list value) : M outcome :=
  let opts := arg 0 args in
  id <- get_prop this "id" ;;
  sid <- interpolate id ;;
  let call := descriptor ("/exec/" +:+ sid +:+ "/json?") GET opts
    {[ 200 := Accept; 404 := Reason "no such exec instance";
       500 := Reason "server error" ]} in
  dial this call (fun err conf =>
    if truthy err then ret (Rejected err) else
    m <- get_prop this "modem" ;;
    c <- get_prop this "container" ;;
    cid <- get_prop conf "Id" ;;
    exec <- new_Exec m c cid ;;
    do set_prop exec "data" conf ;;
    ret (Resolved exec)).

(** *** class ExecManager *)

Definition ExecManager_get (this : value) (args : list value) : M value :=
  let id := arg 0 args in
  m <- get_prop this "modem" ;;
  c <- get_prop this "container" ;;
  new_Exec m c id.

Definition ExecManager_create (this : value) (args : list value) : M outcome :=
  let opts := arg 0 args in
  container <- get_prop this "container" ;;
  id <- get_prop container "id" ;;
  sid <- interpolate id ;;
  let call := descriptor ("/containers/" +:+ sid +:+ "/exec?") POST opts
    {[ 200 := Accept; 201 := Accept; 404 := Reason "no such container";
       409 := Reason "container is paused"; 500 := Reason "server error" ]} in
  dial this call (fun err conf =>
    if truthy err then ret (Rejected err) else
    m <- get_prop this "modem" ;;
    c <- get_prop this "container" ;;
    cid <- get_prop conf "Id" ;;
    exec <- new_Exec m c cid ;;
    do set_prop exec "data" conf ;;
    ret (Resolved exec)).

(** *** class ContainerFs *)

Definition ContainerFs_info (this : value) (args : list value) : M outcome :=
  let opts := arg 0 args in
  container <- get_prop this "container" ;;
  id <- get_prop container "id" ;;
  sid <- interpolate id ;;
  let call := Call ("/containers/" +:+ sid +:+ "/archive?") HEAD opts true
    None None None
    {[ 200 := Accept; 404 := Reason "bad request"; 500 := Reason "server error" ]} in
  dial this call (fun err info =>
    if truthy err then ret (Rejected err) else ret (Resolved info)).

Definition ContainerFs_get (this : value) (args : list value) : M outcome :=
  opts <- default_obj (arg 0 args) ;;
  container <- get_prop this "container" ;;
  id <- get_prop container "id" ;;
  sid <- interpolate id ;;
  path <- get_prop opts "path" ;;
  spath <- interpolate path ;;
  let call := Call ("/containers/" +:+ sid +:+ "/archive?path=" +:+ spath +:+ "&")
    GET opts true None None None
    {[ 200 := Accept; 400 := Reason "bad request";
       404 := Reason "no such container"; 500 := Reason "server error" ]} in
  dial this call (fun err stream =>
    if truthy err then ret (Rejected err) else ret (Resolved stream)).

Definition ContainerFs_put (this : value) (args : list value) : M outcome :=
  let file := arg 0 args in
  let opts := arg 1 args in
  container <- get_prop this "container" ;;
  id <- get_prop container "id" ;;
  sid <- interpolate id ;;
  let call := Call ("/containers/" +:+ sid +:+ "/archive?") PUT opts true
    None None (Some file)
    {[ 200 := Accept; 400 := Reason "bad request";
       403 := Reason "permission denied"; 404 := Reason "no such container";
       500 := Reason "server error" ]} in
  dial this call (fun err res =>
    if truthy err then ret (Rejected err) else ret (Resolved res)).

(** *** class Container *)

Definition Container_status (this : value) (args : list value) : M outcome :=
  let opts := arg 0 args in
  id <- get_prop this "id" ;;
  sid <- interpolate id ;;
  let call := descriptor ("/containers/" +:+ sid +:+ "/json?") GET opts
    {[ 200 := Accept; 404 := Reason "no such container";
       500 := Reason "server error" ]} in
  dial this call (fun err conf =>
    if truthy err then ret (Rejected err) else
    m <- get_prop this "modem" ;;
    i <- get_prop this "id" ;;
    container <- new_Container m i ;;
    do set_prop container "data" conf ;;
    ret (Resolved container)).

Definition Container_top (this : value) (args : list value) : M outcome :=
  let opts := arg 0 args in
  id <- get_prop this "id" ;;
  sid <- interpolate id ;;
  let call := descriptor ("/containers/" +:+ sid +:+ "/top?") GET opts
    {[ 200 := Accept; 404 := Reason "no such container";
       500 := Reason "server error" ]} in
  dial this call (fun err processes =>
    if truthy err then ret (Rejected err) else ret (Resolved processes)).

Definition Container_logs (this : value) (args : list value) : M outcome :=
  let opts := arg 0 args in
  id <- get_prop this "id" ;;
  sid <- interpolate id ;;
  let call := Call ("/containers/" +:+ sid +:+ "/logs?") GET opts true
    None None None
    {[ 101 := Accept; 200 := Accept; 404 := Reason "no such container";
       500 := Reason "server error" ]} in
  dial this call (fun err logs =>
    if truthy err then ret (Rejected err) else ret (Resolved logs)).

Definition Container_changes (this : value) (args : list value) : M outcome :=
  id <- get_prop this "id" ;;
  sid <- interpolate id ;;
  opts <- alloc (Obj KPlain ∅) ;;
  let call := descriptor ("/containers/" +:+ sid +:+ "/changes?") GET opts
    {[ 200 := Accept; 404 := Reason "no such container";
       500 := Reason "server error" ]} in
  dial this call (fun err changes =>
    if truthy err then ret (Rejected err) else ret (Resolved changes)).

Definition Container_export (this : value) (args : list value) : M outcome :=
  opts <- default_obj (arg 0 args) ;;
  id <- get_prop this "id" ;;
  sid <- interpolate id ;;
  stream <- get_prop opts "stream" ;;
  let call := Call ("/containers/" +:+ sid +:+ "/export?") GET opts
    (truthy stream) None None None
    {[ 200 := Accept; 404 := Reason "no such container";
       500 := Reason "server error" ]} in
  dial this call (fun err tarStream =>
    if truthy err then ret (Rejected err) else
    stream <- get_prop opts "stream" ;;
    if negb (truthy stream) then ret (Resolved tarStream) else
    events <- stream_events tarStream ;;
    ret (consume events [])).

Definition Container_stats (this : value) (args : list value) : M outcome :=
  let opts := arg 0 args in
  id <- get_prop this "id" ;;
  sid <- interpolate id ;;
  let call := Call ("/containers/" +:+ sid +:+ "/stats?") GET opts true
    None None None
    {[ 200 := Accept; 404 := Reason "no such container";
       500 := Reason "server error" ]} in
  dial this call (fun err stats =>
    if truthy err then ret (Rejected err) else ret (Resolved stats)).

Definition Container_resize (this : value) (args : list value) : M outcome :=
  let opts := arg 0 args in
  id <- get_prop this "id" ;;
  sid <- interpolate id ;;
  let call := descriptor ("/containers/" +:+ sid +:+ "/resize?") GET opts
    {[ 200 := Accept; 404 := Reason "no such container";
       500 := Reason "server error" ]} in
  dial this call (fun err res =>
    if truthy err then ret (Rejected err) else ret (Resolved res)).

Definition Container_start (this : value) (args : list value) : M outcome :=
  opts <- default_obj (arg 0 args) ;;
  id <- get_prop this "id" ;;
  sid <- interpolate id ;;
  let call := descriptor ("/containers/" +:+ sid +:+ "/start?") POST opts
    {[ 204 := Accept; 304 := Accept; 404 := Reason "no such container";
       500 := Reason "server error" ]} in
  dial this call (fun err _ =>
    if truthy err then ret (Rejected err) else ret (Resolved this)).

Definition Container_stop (this : value) (args : list value) : M outcome :=
  let opts := arg 0 args in
  id <- get_prop this "id" ;;
  sid <- interpolate id ;;
  let call := descriptor ("/containers/" +:+ sid +:+ "/stop?") POST opts
    {[ 204 := Accept; 304 := Accept; 404 := Reason "no such container";
       500 := Reason "server error" ]} in
  dial this call (fun err _ =>
    if truthy err then ret (Rejected err) else ret (Resolved this)).

Definition Container_restart (this : value) (args : list value) : M outcome :=
  let opts := arg 0 args in
  id <- get_prop this "id" ;;
  sid <- interpolate id ;;
  let call := descriptor ("/containers/" +:+ sid +:+ "/restart?") POST opts
    {[ 204 := Accept; 404 := Reason "no such container";
       500 := Reason "server error" ]} in
  dial this call (fun err _ =>
    if truthy err then ret (Rejected err) else ret (Resolved this)).

Definition Container_kill (this : value) (args : list value) : M outcome :=
  let opts := arg 0 args in
  id <- get_prop this "id" ;;
  sid <- interpolate id ;;
  let call := descriptor ("/containers/" +:+ sid +:+ "/kill?") POST opts
    {[ 204 := Accept; 404 := Reason "no such container";
       500 := Reason "server error" ]} in
  dial this call (fun err _ =>
    if truthy err then ret (Rejected err) else ret (Resolved this)).

(** The callback of [update] builds the new handle and attaches the
    warnings before it looks at [err]. *)
Definition Container_update (this : value) (args : list value) : M outcome :=
  let opts := arg 0 args in
  id <- get_prop this "id" ;;
  sid <- interpolate id ;;
  let call := descriptor ("/containers/" +:+ sid +:+ "/update?") POST opts
    {[ 200 := Accept; 400 := Reason "bad request";
       404 := Reason "no such container"; 500 := Reason "server error" ]} in
  dial this call (fun err warnings =>
    m <- get_prop this "modem" ;;
    i <- get_prop this "id" ;;
    container <- new_Container m i ;;
    do set_prop container "Warnings" warnings ;;
    if truthy err then ret (Rejected err) else ret (Resolved container)).

Definition Container_rename (this : value) (args : list value) : M outcome :=
  let opts := arg 0 args in
  id <- get_prop this "id" ;;
  sid <- interpolate id ;;
  let call := descriptor ("/containers/" +:+ sid +:+ "/rename?") POST opts
    {[ 204 := Accept; 404 := Reason "no such container";
       409 := Reason "name already taken"; 500 := Reason "server error" ]} in
  dial this call (fun err _ =>
    if truthy err then ret (Rejected err) else ret (Resolved this)).

Definition Container_pause (this : value) (args : list value) : M outcome :=
  id <- get_prop this "id" ;;
  sid <- interpolate id ;;
  opts <- alloc (Obj KPlain ∅) ;;
  let call := descriptor ("/containers/" +:+ sid +:+ "/pause?") POST opts
    {[ 204 := Accept; 404 := Reason "no such container";
       500 := Reason "server error" ]} in
  dial this call (fun err _ =>
    if truthy err then ret (Rejected err) else ret (Resolved this)).

Definition Container_unpause (this : value) (args : list value) : M outcome :=
  id <- get_prop this "id" ;;
  sid <- interpolate id ;;
  opts <- alloc (Obj KPlain ∅) ;;
  let call := descriptor ("/containers/" +:+ sid +:+ "/unpause?") POST opts
    {[ 204 := Accept; 404 := Reason "no such container";
       500 := Reason "server error" ]} in
  dial this call (fun err _ =>
    if truthy err then ret (Rejected err) else ret (Resolved this)).

Definition Container_attach (this : value) (args : list value) : M outcome :=
  opts <- default_obj (arg 0 args) ;;
  id <- get_prop this "id" ;;
  sid <- interpolate id ;;
  stdin <- get_prop opts "stdin" ;;
  let call := Call ("/containers/" +:+ sid +:+ "/attach?") POST opts true
    None (Some stdin) None
    {[ 101 := Accept; 200 := Accept; 400 := Reason "bad request";
       404 := Reason "no such container"; 500 := Reason "server error" ]} in
  dial this call (fun err stream =>
    if truthy err then ret (Rejected err) else
    pair <- alloc (Obj (KArray [stream; this]) ∅) ;;
    ret (Resolved pair)).

Definition Container_wsattach (this : value) (args : list value) : M outcome :=
  let opts := arg 0 args in
  id <- get_prop this "id" ;;
  sid <- interpolate id ;;
  let call := descriptor ("/containers/" +:+ sid +:+ "/attach/ws?") GET opts
    {[ 200 := Accept; 400 := Reason "bad request";
       404 := Reason "no such container"; 500 := Reason "server error" ]} in
  dial this call (fun err stream =>
    if truthy err then ret (Rejected err) else
    pair <- alloc (Obj (KArray [stream; this]) ∅) ;;
    ret (Resolved pair)).

Definition Container_wait (this : value) (args : list value) : M outcome :=
  id <- get_prop this "id" ;;
  sid <- interpolate id ;;
  opts <- alloc (Obj KPlain ∅) ;;
  let call := descriptor ("/containers/" +:+ sid +:+ "/wait?") POST opts
    {[ 200 := Accept; 404 := Reason "no such container";
       500 := Reason "server error" ]} in
  dial this call (fun err code =>
    if truthy err then ret (Rejected err) else ret (Resolved code)).

Definition Container_delete (this : value) (args : list value) : M outcome :=
  let opts := arg 0 args in
  id <- get_prop this "id" ;;
  sid <- interpolate id ;;
  let call := descriptor ("/containers/" +:+ sid +:+ "?") DELETE opts
    {[ 204 := Accept; 400 := Reason "bad request";
       404 := Reason "no such container"; 500 := Reason "server error" ]} in
  dial this call (fun err _ =>
    if truthy err then ret (Rejected err) else ret (Resolved VNull)).

Definition Container_commit (this : value) (args : list value) : M outcome :=
  opts <- default_obj (arg 0 args) ;;
  id <- get_prop this "id" ;;
  do set_prop opts "container" id ;;
  let call := descriptor "/commit?" POST opts
    {[ 201 := Accept; 404 := Reason "no such container";
       500 := Reason "server error" ]} in
  dial this call (fun err res =>
    if truthy err then ret (Rejected err) else
    m <- get_prop this "modem" ;;
    rid <- get_prop res "Id" ;;
    iid <- replace_sha256 rid ;;
    image <- new_Image m iid ;;
    ret (Resolved image)).

(** *** The default export: the container manager *)

Definition default_get (this : value) (args : list value) : M value :=
  let id := arg 0 args in
  m <- get_prop this "modem" ;;
  new_Container m id.

Definition default_list (this : value) (args : list value) : M outcome :=
  let opts := arg 0 args in
  let call := descriptor "/containers/json?" GET opts
    {[ 200 := Accept; 400 := Reason "bad request"; 500 := Reason "server error" ]} in
  dial this call (fun err containers =>
    if truthy err then ret (Rejected err) else
    elems <- array_elems containers ;;
    handles <- mapM (fun conf =>
                 m <- get_prop this "modem" ;;
                 id <- get_prop conf "Id" ;;
                 container <- new_Container m id ;;
                 do set_prop container "data" conf ;;
                 ret container) elems ;;
    result <- alloc (Obj (KArray handles) ∅) ;;
    ret (Resolved result)).

Definition default_create (this : value) (args : list value) : M outcome :=
  let opts := arg 0 args in
  let call := descriptor "/containers/create?" POST opts
    {[ 200 := Accept; 201 := Accept; 400 := Reason "bad request";
       404 := Reason "no such image"; 406 := Reason "impossible to attach";
       500 := Reason "server error" ]} in
  dial this call (fun err conf =>
    if truthy err then ret (Rejected err) else
    m <- get_prop this "modem" ;;
    id <- get_prop conf "Id" ;;
    container <- new_Container m id ;;
    do set_prop container "data" conf ;;
    ret (Resolved container)).

Definition default_prune (this : value) (args : list value) : M outcome :=
  let opts := arg 0 args in
  let call := descriptor "/containers/prune" POST opts
    {[ 200 := Accept; 500 := Reason "server error" ]} in
  dial this call (fun err res =>
    if truthy err then ret (Rejected err) else ret (Resolved res)).

(** *** Every promise-returning method, by name *)

Inductive method :=
| M_Exec_create | M_Exec_start | M_Exec_resize | M_Exec_status
| M_ExecManager_create
| M_ContainerFs_info | M_ContainerFs_get | M_ContainerFs_put
| M_status | M_top | M_logs | M_changes | M_export | M_stats | M_resize
| M_start | M_stop | M_restart | M_kill | M_update | M_rename
| M_pause | M_unpause | M_attach | M_wsattach | M_wait | M_delete | M_commit
| M_list | M_create | M_prune.

Definition invoke (m : method) : value → list value → M outcome :=
  match m with
  | M_Exec_create => Exec_create
  | M_Exec_start => Exec_start
  | M_Exec_resize => Exec_resize
  | M_Exec_status => Exec_status
  | M_ExecManager_create => ExecManager_create
  | M_ContainerFs_info => ContainerFs_info
  | M_ContainerFs_get => ContainerFs_get
  | M_ContainerFs_put => ContainerFs_put
  | M_status => Container_status
  | M_top => Container_top
  | M_logs => Container_logs
  | M_changes => Container_changes
  | M_export => Container_export
  | M_stats => Container_stats
  | M_resize => Container_resize
  | M_start => Container_start
  | M_stop => Container_stop
  | M_restart => Container_restart
  | M_kill => Container_kill
  | M_update => Container_update
  | M_rename => Container_rename
  | M_pause => Container_pause
  | M_unpause => Container_unpause
  | M_attach => Container_attach
  | M_wsattach => Container_wsattach
  | M_wait => Container_wait
  | M_delete => Container_delete
  | M_commit => Container_commit
  | M_list => default_list
  | M_create => default_create
  | M_prune => default_prune
  end.

End Operations.

(** * Vocabulary of the statements *)

(** The objects [new Exec(modem, container, id)] adds at location [n]. *)
Definition Exec_objects (n : loc) (modem container id : value) : list object :=
  [ Obj (KInstance CExec)
        (<["id" := id]> (<["container" := container]> (<["modem" := modem]>
           (<["data" := VRef (n + 1)]> ∅))));
    Obj KPlain ∅ ].

(** The objects [new Container(modem, id)] adds at location [n]: the
    handle, its [Warnings] array, its [fs] and its [exec]. *)
Definition Container_props (n : loc) (modem id : value) : gmap string value :=
  <["exec" := VRef (n + 3)]> (<["fs" := VRef (n + 2)]> (<["id" := id]>
    (<["modem" := modem]> (<["Warnings" := VRef (n + 1)]> ∅)))).

Definition Container_parts (n : loc) (modem : value) : list object :=
  [ Obj (KArray []) ∅;
    Obj (KInstance CContainerFs) (<["container" := VRef n]> (<["modem" := modem]> ∅));
    Obj (KInstance CExecManager) (<["container" := VRef n]> (<["modem" := modem]> ∅)) ].

Definition Container_objects (n : loc) (modem id : value) : list object :=
  Obj (KInstance CContainer) (Container_props n modem id) :: Container_parts n modem.

(** The dials a call of method [m] adds to the log. *)
Definition dialed (t : transport) (m : method) (this : value) (args : list value)
    (st : state) : list dial_event :=
  drop (length (st_dials st)) (st_dials (invoke t m this args st).2).

(** What the transport answered to a dial. *)
Definition answer (t : transport) (ev : dial_event) : response :=
  t (d_call ev) (d_heap ev).

(** The value of [v.name] in store [h], [undefined] where there is none. *)
Definition field (h : heap) (v : value) (name : string) : value :=
  match v with
  | VRef l =>
      match h !! l with
      | Some o => default VUndefined (o_props o !! name)
      | None => VUndefined
      end
  | _ => VUndefined
  end.

(** [v] refers to an object of the store. *)
Definition is_object (h : heap) (v : value) : Prop :=
  ∃ l o, v = VRef l ∧ h !! l = Some o.

(** A table entry that is an error reason. *)
Definition is_reason (e : option status) : Prop :=
  match e with
  | Some (Reason _) => True
  | _ => False
  end.

(** The last path segment of the four lifecycle verbs. *)
Definition verb (m : method) : option string :=
  match m with
  | M_start => Some "start"
  | M_stop => Some "stop"
  | M_restart => Some "restart"
  | M_kill => Some "kill"
  | _ => None
  end.

(** ** A small world for the worked examples

    A daemon that answers every dial with no error and no data; a store
    holding a modem (0), the manager (1) and the handle of container
    ["abc"] (2) with its [Warnings] (3), [fs] (4) and [exec] (5). *)
Definition quiet_daemon : transport := fun _ _ => Response VNull VNull [].

Definition example_heap : heap :=
  [ Obj (KInstance CModem) ∅; Obj (KInstance CManager) {[ "modem" := VRef 0 ]} ]
  ++ Container_objects 2 (VRef 0) (VStr "abc").

(** A daemon that keeps the transport contract for [export]: asked for a
    stream it answers with a live stream that emits two chunks and ends,
    otherwise with the buffered text. *)
Definition tar_daemon : transport :=
  fun c h =>
    if c_isStream c
    then Response VNull (VRef (length h))
           [Obj (KStream [SData "ab"; SData "cd"; SEnd]) ∅]
    else Response VNull (VStr "abcd") [].

(** A daemon that fails every dial with an error object. *)
Definition failing_daemon : transport :=
  fun _ h =>
    Response (VRef (length h)) VNull
      [Obj KPlain {[ "reason" := VStr "server error"; "statusCode" := VNum 500 ]}].

(** The example store after the handle of container ["abc"] was given a
    snapshot (6), as [list] or [status] would. *)
Definition example_heap_with_snapshot : heap :=
  [ Obj (KInstance CModem) ∅; Obj (KInstance CManager) {[ "modem" := VRef 0 ]};
    Obj (KInstance CContainer)
        (<["data" := VRef 6]> (Container_props 2 (VRef 0) (VStr "abc"))) ]
  ++ Container_parts 2 (VRef 0)
  ++ [ Obj KPlain {[ "Id" := VStr "abc"; "State" := VStr "running" ]} ].

(** The state transitions whose callback ends in [resolve(this)]. *)
Definition resolves_this (m : method) : bool :=
  match m with
  | M_start | M_stop | M_restart | M_kill | M_rename | M_pause | M_unpause => true
  | _ => false
  end.

(** [r] is [s] with the first occurrence of [pat] removed: [pat] occurs
    in [s] after a prefix [pre], no occurrence starts earlier, and [r] is
    [pre] followed by what comes after that occurrence; or [pat] does not
    occur in [s] and [r] is [s]. *)
Definition first_occurrence_removed (pat s r : string) : Prop :=
  (∃ pre post,
      s = pre +:+ pat +:+ post ∧ r = pre +:+ post
      ∧ ∀ pre' post', s = pre' +:+ pat +:+ post' →
          (String.length pre ≤ String.length pre')%nat)
  ∨ ((∀ pre post, s ≠ pre +:+ pat +:+ post) ∧ r = s).

(** A daemon that answers every dial with a new image record. *)
Definition commit_daemon : transport :=
  fun _ h =>
    Response VNull (VRef (length h)) [Obj KPlain {[ "Id" := VStr "sha256:0123abcd" ]}].

(** The example store with an options record (6) whose [container] is
    already set to something else. *)
Definition example_heap_with_opts : heap :=
  example_heap ++ [Obj KPlain {[ "container" := VStr "other"; "repo" := VStr "r" ]}].

(** A daemon whose inventory holds two containers, in this order. *)
Definition inventory_daemon : transport :=
  fun _ h =>
    Response VNull (VRef (length h))
      [ Obj (KArray [VRef (length h + 1); VRef (length h + 2)]) ∅;
        Obj KPlain {[ "Id" := VStr "zz"; "State" := VStr "exited" ]};
        Obj KPlain {[ "Id" := VStr "aa"; "State" := VStr "running" ]} ].

(** ** What [list] allocates

    The handles made for the elements [elems], the first one at location
    [n], each taking four locations; and the objects behind them, where
    [h] is the store the elements are read in. *)
Fixpoint handles_from (n : loc) (elems : list value) : list value :=
  match elems with
  | [] => []
  | _ :: elems' => VRef n :: handles_from (n + 4) elems'
  end.

Fixpoint handle_objects (n : loc) (modem : value) (h : heap) (elems : list value)
    : list object :=
  match elems with
  | [] => []
  | conf :: elems' =>
      (Obj (KInstance CContainer)
           (<["data" := conf]> (Container_props n modem (field h conf "Id")))
       :: Container_parts n modem)
      ++ handle_objects (n + 4) modem h elems'
  end.

(** ** Properties of a computation *)

(** [m] does not dial. *)
Definition quiet {A} (m : M A) : Prop :=
  ∀ st, st_dials (m st).2 = st_dials st.

(** [v.name] can be read in [h]: [v] is neither [undefined] nor [null]
    (nor a dangling reference). *)
Definition readable (h : heap) (v : value) : Prop :=
  match v with
  | VUndefined | VNull => False
  | VRef l => is_Some (h !! l)
  | _ => True
  end.

(** [m] dials at most once, and if the transport reports an error for
    that dial, [m] ends with the promise rejected with that very error. *)
Definition rejects_on_error (t : transport) (m : M outcome) : Prop :=
  ∀ st, ∃ new,
    st_dials (m st).2 = st_dials st ++ new
    ∧ (length new ≤ 1)%nat
    ∧ ∀ ev, ev ∈ new → truthy (r_err (answer t ev)) = true →
        (m st).1 = Val (Rejected (r_err (answer t ev))).

(** [o'] is [o] but for its [container] property. *)
Definition same_but_container (o o' : object) : Prop :=
  o_kind o' = o_kind o
  ∧ ∀ name, name ≠ "container" → o_props o' !! name = o_props o !! name.

(** Store [h'] extends [h] and keeps its first [n] objects, but for their
    [container] properties. *)
Definition frame (n : nat) (h h' : heap) : Prop :=
  (length h ≤ length h')%nat
  ∧ ∀ l o, (l < n)%nat → h !! l = Some o →
      ∃ o', h' !! l = Some o' ∧ same_but_container o o'.

(** The methods that bring back a decoded representation. *)
Definition carries_snapshot (m : method) : bool :=
  match m with
  | M_status | M_create | M_list | M_update
  | M_Exec_create | M_Exec_status | M_ExecManager_create => true
  | _ => false
  end.

(** The fields of a handle named in C9. *)
Definition handle_fields : list string := ["modem"; "id"; "data"; "Warnings"].

(** [v] refers to an object allocated after the first [n]. *)
Definition fresh (n : nat) (v : value) : Prop := ∃ l, v = VRef l ∧ (n ≤ l)%nat.

(** Run from a store of at least [n] objects, [m] keeps the first [n]
    (but for [container] properties), and its result satisfies [Q]. *)
Definition framed {A} (n : nat) (m : M A) (Q : A → Prop) : Prop :=
  ∀ st, (n ≤ length (st_heap st))%nat →
    frame n (st_heap st) (st_heap (m st).2) ∧ ∀ a, (m st).1 = Val a → Q a.

(** * Vocabulary of the further properties *)

(** [v] refers to a [Modem] of store [h]. *)
Definition is_modem (h : heap) (v : value) : Prop :=
  ∃ lm pm, v = VRef lm ∧ h !! lm = Some (Obj (KInstance CModem) pm).

(** Every dial [m] makes satisfies [P]. *)
Definition every_dial {A} (P : dial_event → Prop) (m : M A) : Prop :=
  ∀ st, ∃ new, st_dials (m st).2 = st_dials st ++ new ∧ Forall P new.

(** A table that can succeed and that keeps the classes of HTTP status
    codes apart: it accepts some code, every code it accepts is below 400,
    and every code it gives a reason to is a 4xx or 5xx code with a
    non-empty reason. *)
Definition table_sane (tbl : gmap Z status) : Prop :=
  (∃ code, tbl !! code = Some Accept)
  ∧ ∀ code s, tbl !! code = Some s →
      match s with
      | Accept => (100 ≤ code < 400)%Z
      | Reason r => (400 ≤ code < 600)%Z ∧ r ≠ ""
      end.

(** What a dial of a method called on [this] looks like, whatever the
    method: it is made on the [Modem] that [this.modem] holds, with a sane
    table; only a PUT carries a file, and only a stream request asks for
    [hijack] or [openStdin]. *)
Definition well_formed_dial (this : value) (ev : dial_event) : Prop :=
  is_modem (d_heap ev) (d_modem ev)
  ∧ d_modem ev = field (d_heap ev) this "modem"
  ∧ table_sane (c_statusCodes (d_call ev))
  ∧ (c_file (d_call ev) ≠ None → c_method (d_call ev) = PUT)
  ∧ (c_hijack (d_call ev) ≠ None ∨ c_openStdin (d_call ev) ≠ None →
     c_isStream (d_call ev) = true).

(** [m] dials at most once and ends, whatever the transport answers, with
    the promise settled as [G err data] says. *)
Definition settles_with (t : transport) (G : value → value → outcome)
    (m : M outcome) : Prop :=
  ∀ st, ∃ new,
    st_dials (m st).2 = st_dials st ++ new
    ∧ (length new ≤ 1)%nat
    ∧ ∀ ev, ev ∈ new →
        (m st).1 = Val (G (r_err (answer t ev)) (r_data (answer t ev))).

(** The methods whose callback is [if (err) return reject(err);
    resolve(x)] with [x] the transport's data, or [null]: what they make
    of the data. *)
Definition resolution (m : method) : option (value → value) :=
  match m with
  | M_top | M_logs | M_changes | M_stats | M_resize | M_wait | M_prune
  | M_Exec_start | M_ContainerFs_info | M_ContainerFs_get | M_ContainerFs_put =>
      Some (fun data => data)
  | M_delete | M_Exec_resize => Some (fun _ => VNull)
  | _ => None
  end.

(** The methods declared with [opts = {}] that read a property of
    [opts]. *)
Definition reads_options (m : method) : bool :=
  match m with
  | M_Exec_start | M_ContainerFs_get | M_export | M_attach | M_commit => true
  | _ => false
  end.

(** The methods that take no parameter and send [options: {}]. *)
Definition fixed_options (m : method) : bool :=
  match m with
  | M_changes | M_pause | M_unpause | M_wait => true
  | _ => false
  end.

(** Run from a store of at least [n] objects, [m] leaves the first [n] as
    they are, never shrinks the store, and its result satisfies [Q]. *)
Definition grows {A} (n : nat) (m : M A) (Q : A → Prop) : Prop :=
  ∀ st, (n ≤ length (st_heap st))%nat →
    take n (st_heap (m st).2) = take n (st_heap st)
    ∧ (length (st_heap st) ≤ length (st_heap (m st).2))%nat
    ∧ ∀ a, (m st).1 = Val a → Q a.

(** [undefined] or [null]. *)
Definition nullish (v : value) : Prop := v = VUndefined ∨ v = VNull.

(** Which argument a method hands to the transport as [options]; [None]
    for the methods that take no parameter. *)
Definition options_argument (m : method) : option nat :=
  match m with
  | M_changes | M_pause | M_unpause | M_wait => None
  | M_ContainerFs_put => Some 1
  | _ => Some 0
  end.

(** The methods declared with [opts = {}]. *)
Definition defaults_options (m : method) : bool :=
  match m with
  | M_Exec_start | M_ContainerFs_get | M_export | M_start | M_attach | M_commit => true
  | _ => false
  end.

(** * Running the model *)

Example to_string_ex :
  to_string [Obj (KArray [VStr "a"; VNull; VNum 12; VRef 1]) ∅; Obj KPlain ∅] (VRef 0)
  = "a,,12,[object Object]".
Proof. vm_compute. reflexivity. Qed.

Arguments to_string : simpl never.
Arguments String.append : simpl never.

Lemma lookup_ext_0 {A} (h ext : list A) : (h ++ ext) !! length h = ext !! 0.
Proof. rewrite lookup_app_r; [|lia]. by rewrite Nat.sub_diag. Qed.

Lemma insert_ext_0 {A} (h ext : list A) x :
  <[length h := x]> (h ++ ext) = h ++ <[0 := x]> ext.
Proof. rewrite insert_app_r_alt; [|lia]. by rewrite Nat.sub_diag. Qed.

Lemma drop_snoc_all {A} (l : list A) x : drop (length l) (l ++ [x]) = [x].
Proof. by rewrite drop_app_length. Qed.

Lemma bind_run {A B} (m : M A) (f : A → M B) st :
  bind m f st
  = match m st with
    | (Val a, st') => f a st'
    | (Exn s, st') => (Exn s, st')
    end.
Proof. reflexivity. Qed.

Lemma alloc_run h o ds :
  alloc o (State h ds) = (Val (VRef (length h)), State (h ++ [o]) ds).
Proof. reflexivity. Qed.

Lemma alloc_ext h ext o ds :
  alloc o (State (h ++ ext) ds)
  = (Val (VRef (length h + length ext)), State (h ++ (ext ++ [o])) ds).
Proof. unfold alloc. cbn [st_heap st_dials]. by rewrite length_app, app_assoc. Qed.

Lemma set_prop_fresh h ext o ds name x :
  ext !! 0 = Some o →
  set_prop (VRef (length h)) name x (State (h ++ ext) ds)
  = (Val (), State (h ++ <[0 := Obj (o_kind o) (<[name := x]> (o_props o))]> ext) ds).
Proof.
  intros H. unfold set_prop. cbn [st_heap st_dials].
  rewrite lookup_ext_0, H. by rewrite insert_ext_0.
Qed.

Lemma get_prop_fresh h ext o ds name :
  ext !! 0 = Some o →
  get_prop (VRef (length h)) name (State (h ++ ext) ds)
  = (Val (default VUndefined (o_props o !! name)), State (h ++ ext) ds).
Proof.
  intros H. unfold get_prop. cbn [st_heap st_dials]. by rewrite lookup_ext_0, H.
Qed.

Lemma get_prop_ref h ds l o name :
  h !! l = Some o →
  get_prop (VRef l) name (State h ds)
  = (Val (default VUndefined (o_props o !! name)), State h ds).
Proof. intros H. unfold get_prop. cbn [st_heap st_dials]. by rewrite H. Qed.

Lemma set_prop_ref h ds l o name x :
  h !! l = Some o →
  set_prop (VRef l) name x (State h ds)
  = (Val (), State (<[l := Obj (o_kind o) (<[name := x]> (o_props o))]> h) ds).
Proof. intros H. unfold set_prop. cbn [st_heap st_dials]. by rewrite H. Qed.

(** One step of a constructor running on fresh objects. *)
Ltac ctor_step :=
  rewrite bind_run;
  first [ rewrite alloc_ext | rewrite alloc_run
        | erewrite set_prop_fresh by reflexivity
        | erewrite get_prop_fresh by reflexivity ];
  cbn [insert list_insert o_kind o_props length Nat.add default app].

Lemma new_ContainerFs_run modem c h ds :
  new_ContainerFs modem c (State h ds)
  = (Val (VRef (length h)),
     State (h ++ [Obj (KInstance CContainerFs)
                      (<["container" := c]> (<["modem" := modem]> ∅))]) ds).
Proof. unfold new_ContainerFs. repeat ctor_step. reflexivity. Qed.

Lemma new_ExecManager_run modem c h ds :
  new_ExecManager modem c (State h ds)
  = (Val (VRef (length h)),
     State (h ++ [Obj (KInstance CExecManager)
                      (<["container" := c]> (<["modem" := modem]> ∅))]) ds).
Proof. unfold new_ExecManager. repeat ctor_step. reflexivity. Qed.

Lemma new_Image_run modem id h ds :
  new_Image modem id (State h ds)
  = (Val (VRef (length h)),
     State (h ++ [Obj (KInstance CImage)
                      (<["id" := id]> (<["modem" := modem]> ∅))]) ds).
Proof. unfold new_Image. repeat ctor_step. reflexivity. Qed.

Lemma new_Exec_run modem c id h ds :
  new_Exec modem c id (State h ds)
  = (Val (VRef (length h)), State (h ++ Exec_objects (length h) modem c id) ds).
Proof. unfold new_Exec. repeat ctor_step. reflexivity. Qed.

Lemma new_Container_run modem id h ds :
  new_Container modem id (State h ds)
  = (Val (VRef (length h)), State (h ++ Container_objects (length h) modem id) ds).
Proof.
  unfold new_Container. do 6 ctor_step.
  rewrite lookup_insert_ne by done. rewrite lookup_insert_eq. cbn [default].
  rewrite bind_run, new_ContainerFs_run, <- app_assoc, length_app.
  cbn [app length]. ctor_step. ctor_step.
  rewrite lookup_insert_ne by done. rewrite lookup_insert_ne by done.
  rewrite lookup_insert_eq. cbn [default].
  rewrite bind_run, new_ExecManager_run, <- app_assoc, length_app.
  cbn [app length]. ctor_step. reflexivity.
Qed.

Lemma ret_run {A} (a : A) st : ret a st = (Val a, st).
Proof. reflexivity. Qed.

Lemma interpolate_run v h ds :
  interpolate v (State h ds) = (Val (to_string h v), State h ds).
Proof. reflexivity. Qed.

Lemma to_string_str h s : to_string h (VStr s) = s.
Proof. reflexivity. Qed.

Lemma default_obj_run v h ds :
  default_obj v (State h ds)
  = match v with
    | VUndefined => (Val (VRef (length h)), State (h ++ [Obj KPlain ∅]) ds)
    | _ => (Val v, State h ds)
    end.
Proof. by destruct v. Qed.

Lemma dial_method_ref h ds lm pm :
  h !! lm = Some (Obj (KInstance CModem) pm) →
  dial_method (VRef lm) (State h ds) = (Val (), State h ds).
Proof. intros H. unfold dial_method. cbn [st_heap]. by rewrite H. Qed.

(** A dial made on an object that holds a modem: the transport answers in
    the store it was given, extended with the objects of its answer. *)
Lemma dial_ref t l o lm pm c cb h ds :
  h !! l = Some o →
  o_props o !! "modem" = Some (VRef lm) →
  h !! lm = Some (Obj (KInstance CModem) pm) →
  dial t (VRef l) c cb (State h ds)
  = at_site InCallback (cb (r_err (t c h)) (r_data (t c h)))
      (State (h ++ r_fresh (t c h)) (ds ++ [Dial (VRef lm) c h])).
Proof.
  intros H Hm Hlm. unfold dial. rewrite bind_run. unfold at_site at 1.
  rewrite (get_prop_ref _ _ _ _ _ H), Hm. cbn [default from_option id].
  rewrite bind_run. unfold at_site at 1. rewrite (dial_method_ref _ _ _ _ Hlm).
  reflexivity.
Qed.

(** A callback that only settles the promise. *)
Lemma at_site_settle s (b : bool) (x y : outcome) st :
  at_site s (if b then ret x else ret y) st = (Val (if b then x else y), st).
Proof. by destruct b. Qed.

Lemma settle_run (b : bool) (x y : outcome) st :
  (if b then ret x else ret y) st = (Val (if b then x else y), st).
Proof. by destruct b. Qed.

Lemma field_ref h l o name :
  h !! l = Some o → field h (VRef l) name = default VUndefined (o_props o !! name).
Proof. intros H. unfold field. by rewrite H. Qed.

Lemma lookup_fresh {A} (h : list A) x : (h ++ [x]) !! length h = Some x.
Proof. by rewrite lookup_ext_0. Qed.

Ltac heap_lookup :=
  first [ eassumption | apply lookup_fresh | apply lookup_app_l_Some; heap_lookup ].

(** Symbolic execution of straight-line code on known objects. *)
Ltac exec :=
  repeat first
    [ rewrite bind_run | rewrite default_obj_run | rewrite interpolate_run
    | rewrite ret_run | rewrite alloc_run | rewrite at_site_settle
    | rewrite settle_run
    | erewrite get_prop_ref by heap_lookup
    | erewrite dial_ref by heap_lookup
    | progress cbv beta iota ].

(** Use what is known about a property of an object. *)
Ltac known H := rewrite H; cbn [default from_option id].

(** The run made exactly one dial; name it and look at its descriptor. *)
Ltac one_dial :=
  cbn [snd st_dials]; rewrite drop_snoc_all; eexists; (split; [reflexivity|]);
  cbn [d_call d_heap d_modem descriptor c_path c_method c_options c_isStream
       c_hijack c_openStdin c_file c_statusCodes].

(** Look a symbolic code up in a literal table, one key at a time. *)
Ltac table_case := cbn [is_reason]; intuition congruence.
Ltac table :=
  repeat (rewrite lookup_insert; case_decide; [subst; table_case|]);
  rewrite lookup_singleton; case_decide; [subst|]; table_case.

(** ** The status-code tables *)

Section Tables.
Local Open Scope Z_scope.

Lemma table_start_stop (code : Z) :
  let tbl : gmap Z status :=
    {[ 204 := Accept; 304 := Accept; 404 := Reason "no such container";
       500 := Reason "server error" ]} in
  (tbl !! code = Some Accept ↔ code = 204 ∨ code = 304)
  ∧ (is_reason (tbl !! code) ↔ code = 404 ∨ code = 500).
Proof. cbv zeta. split; table. Qed.

Lemma table_restart_kill (code : Z) :
  let tbl : gmap Z status :=
    {[ 204 := Accept; 404 := Reason "no such container";
       500 := Reason "server error" ]} in
  (tbl !! code = Some Accept ↔ code = 204)
  ∧ (is_reason (tbl !! code) ↔ code = 404 ∨ code = 500).
Proof. cbv zeta. split; table. Qed.

Lemma table_archive_info (code : Z) :
  let tbl : gmap Z status :=
    {[ 200 := Accept; 404 := Reason "bad request"; 500 := Reason "server error" ]} in
  (tbl !! code = Some Accept ↔ code = 200)
  ∧ (is_reason (tbl !! code) ↔ code = 404 ∨ code = 500).
Proof. cbv zeta. split; table. Qed.

Lemma table_archive_get (code : Z) :
  let tbl : gmap Z status :=
    {[ 200 := Accept; 400 := Reason "bad request";
       404 := Reason "no such container"; 500 := Reason "server error" ]} in
  (tbl !! code = Some Accept ↔ code = 200)
  ∧ (is_reason (tbl !! code) ↔ code = 400 ∨ code = 404 ∨ code = 500).
Proof. cbv zeta. split; table. Qed.

Lemma table_archive_put (code : Z) :
  let tbl : gmap Z status :=
    {[ 200 := Accept; 400 := Reason "bad request";
       403 := Reason "permission denied"; 404 := Reason "no such container";
       500 := Reason "server error" ]} in
  (tbl !! code = Some Accept ↔ code = 200)
  ∧ (is_reason (tbl !! code) ↔ code = 400 ∨ code = 403 ∨ code = 404 ∨ code = 500).
Proof. cbv zeta. split; table. Qed.

End Tables.

Lemma at_site_run {A} s (m : M A) st :
  at_site s m st
  = match m st with
    | (Exn _, st') => (Exn s, st')
    | r => r
    end.
Proof. reflexivity. Qed.

Lemma stream_events_ref h ds l events p :
  h !! l = Some (Obj (KStream events) p) →
  stream_events (VRef l) (State h ds) = (Val events, State h ds).
Proof. intros H. unfold stream_events. cbn [st_heap]. by rewrite H. Qed.

(** ** Computations that do not dial *)

Section Quiet.

Lemma quiet_ret {A} (a : A) : quiet (ret a).
Proof. by intros st. Qed.

Lemma quiet_throw {A} : quiet (@throw A).
Proof. by intros st. Qed.

Lemma quiet_bind {A B} (m : M A) (f : A → M B) :
  quiet m → (∀ a, quiet (f a)) → quiet (bind m f).
Proof.
  intros Hm Hf st. rewrite bind_run. specialize (Hm st).
  destruct (m st) as [[a|s] st']; cbn in *; [|done].
  by rewrite Hf.
Qed.

Lemma quiet_at_site {A} s (m : M A) : quiet m → quiet (at_site s m).
Proof.
  intros Hm st. rewrite at_site_run. specialize (Hm st).
  by destruct (m st) as [[a|s'] st'].
Qed.

Lemma quiet_alloc o : quiet (alloc o).
Proof. by intros st. Qed.

Lemma quiet_get_prop v name : quiet (get_prop v name).
Proof. intros st. unfold get_prop. by repeat case_match. Qed.

Lemma quiet_set_prop v name x : quiet (set_prop v name x).
Proof. intros st. unfold set_prop. by repeat case_match. Qed.

Lemma quiet_interpolate v : quiet (interpolate v).
Proof. by intros st. Qed.

Lemma quiet_default_obj v : quiet (default_obj v).
Proof. destruct v; first [apply quiet_alloc | apply quiet_ret]. Qed.

Lemma quiet_array_elems v : quiet (array_elems v).
Proof. intros st. unfold array_elems. by repeat case_match. Qed.

Lemma quiet_stream_events v : quiet (stream_events v).
Proof. intros st. unfold stream_events. by repeat case_match. Qed.

Lemma quiet_replace_sha256 v : quiet (replace_sha256 v).
Proof. destruct v; first [apply quiet_ret | apply quiet_throw]. Qed.

Lemma quiet_mapM {A B} (f : A → M B) l : (∀ a, quiet (f a)) → quiet (mapM f l).
Proof.
  intros Hf. induction l as [|a l IH]; cbn [mapM]; [apply quiet_ret|].
  apply quiet_bind; [done|]. intros b. apply quiet_bind; [done|].
  intros bs. apply quiet_ret.
Qed.

End Quiet.

Create HintDb quiet.
#[local] Hint Resolve quiet_ret quiet_throw quiet_alloc quiet_get_prop
  quiet_set_prop quiet_interpolate quiet_default_obj quiet_array_elems
  quiet_stream_events quiet_replace_sha256 : quiet.

(** Decide quietness of straight-line code, one construct at a time. *)
Ltac solve_quiet :=
  repeat first
    [ apply quiet_bind; [|intros ?]
    | apply quiet_at_site
    | apply quiet_mapM; intros ?
    | solve [auto with quiet]
    | match goal with
      | |- quiet (if ?b then _ else _) => destruct b
      end ].

Lemma quiet_new_ContainerFs m c : quiet (new_ContainerFs m c).
Proof. unfold new_ContainerFs. solve_quiet. Qed.

Lemma quiet_new_ExecManager m c : quiet (new_ExecManager m c).
Proof. unfold new_ExecManager. solve_quiet. Qed.

#[local] Hint Resolve quiet_new_ContainerFs quiet_new_ExecManager : quiet.

Lemma quiet_new_Container m i : quiet (new_Container m i).
Proof. unfold new_Container. solve_quiet. Qed.

Lemma quiet_new_Exec m c i : quiet (new_Exec m c i).
Proof. unfold new_Exec. solve_quiet. Qed.

Lemma quiet_new_Image m i : quiet (new_Image m i).
Proof. unfold new_Image. solve_quiet. Qed.

#[local] Hint Resolve quiet_new_Container quiet_new_Exec quiet_new_Image : quiet.

(** * The call descriptors *)

(** C7.  On a container handle, each of [start], [stop], [restart] and
    [kill] dials once, with method POST and path
    [/containers/{id}/{verb}?]; the table accepts exactly 204, and 304 as
    well for [start] and [stop] only, and gives an error reason to 404 and
    500 and to no other code. *)
Theorem lifecycle_verbs_descriptor (t : transport) (h : heap) (ds : list dial_event)
    (l lm : loc) (o : object) (pm : gmap string value) (args : list value)
    (m : method) (v : string) :
  verb m = Some v →
  h !! l = Some o →
  o_props o !! "modem" = Some (VRef lm) →
  h !! lm = Some (Obj (KInstance CModem) pm) →
  ∃ ev, dialed t m (VRef l) args (State h ds) = [ev]
    ∧ c_method (d_call ev) = POST
    ∧ c_path (d_call ev)
      = "/containers/" +:+ to_string (d_heap ev) (field h (VRef l) "id")
        +:+ "/" +:+ v +:+ "?"
    ∧ (∀ code, c_statusCodes (d_call ev) !! code = Some Accept
               ↔ code = 204%Z ∨ (code = 304%Z ∧ (m = M_start ∨ m = M_stop)))
    ∧ (∀ code, is_reason (c_statusCodes (d_call ev) !! code)
               ↔ code = 404%Z ∨ code = 500%Z).
Proof.
  intros Hv H Hm Hlm. rewrite (field_ref _ _ _ _ H). unfold dialed.
  destruct m; try discriminate Hv; injection Hv as <-; cbn [invoke].
  - unfold Container_start. exec. destruct (arg 0 args); exec; one_dial.
    all: split; [done|]; split; [done|].
    all: split; intros code; destruct (table_start_stop code) as [Ha Hr];
      cbv zeta in Ha, Hr; [rewrite Ha|rewrite Hr]; intuition congruence.
  - unfold Container_stop. exec. one_dial.
    split; [done|]; split; [done|].
    split; intros code; destruct (table_start_stop code) as [Ha Hr];
      cbv zeta in Ha, Hr; [rewrite Ha|rewrite Hr]; intuition congruence.
  - unfold Container_restart. exec. one_dial.
    split; [done|]; split; [done|].
    split; intros code; destruct (table_restart_kill code) as [Ha Hr];
      cbv zeta in Ha, Hr; [rewrite Ha|rewrite Hr]; intuition congruence.
  - unfold Container_kill. exec. one_dial.
    split; [done|]; split; [done|].
    split; intros code; destruct (table_restart_kill code) as [Ha Hr];
      cbv zeta in Ha, Hr; [rewrite Ha|rewrite Hr]; intuition congruence.
Qed.

Lemma lifecycle_verbs_descriptor_witness :
  ∃ ev, dialed quiet_daemon M_start (VRef 2) [] (State example_heap []) = [ev]
    ∧ c_method (d_call ev) = POST
    ∧ c_path (d_call ev)
      = "/containers/" +:+ to_string (d_heap ev) (field example_heap (VRef 2) "id")
        +:+ "/" +:+ "start" +:+ "?"
    ∧ (∀ code, c_statusCodes (d_call ev) !! code = Some Accept
               ↔ code = 204%Z ∨ (code = 304%Z ∧ (M_start = M_start ∨ M_start = M_stop)))
    ∧ (∀ code, is_reason (c_statusCodes (d_call ev) !! code)
               ↔ code = 404%Z ∨ code = 500%Z).
Proof.
  apply (lifecycle_verbs_descriptor quiet_daemon example_heap [] 2 0
           (Obj (KInstance CContainer) (Container_props 2 (VRef 0) (VStr "abc")))
           ∅ [] M_start "start"); reflexivity.
Defined.

Example start_path_ex :
  (c_path ∘ d_call) <$> dialed quiet_daemon M_start (VRef 2) [] (State example_heap [])
  = ["/containers/abc/start?"].
Proof. vm_compute. reflexivity. Qed.

(** C2, as the claim states it, fails on [ContainerFs.get]: its table has
    no entry for 403. *)
Lemma archive_get_has_no_403 :
  ∃ ev, dialed quiet_daemon M_ContainerFs_get (VRef 4) [] (State example_heap []) = [ev]
    ∧ c_statusCodes (d_call ev) !! 403%Z = None
    ∧ ¬ is_reason (c_statusCodes (d_call ev) !! 403%Z).
Proof. vm_compute. eexists. split; [reflexivity|]. split; [reflexivity|]. tauto. Qed.

(** C2, amended.  On the filesystem object of a container handle, each of
    [info], [get] and [put] dials once with a path that begins
    [/containers/{id}/archive?] ([get] appends [path={opts.path}&]); each
    table accepts exactly 200 and gives an error reason to 404 and 500;
    [put] also to 400 and 403, [get] also to 400; the tables of [get] and
    [info] have no entry for 403. *)
Theorem archive_descriptors (t : transport) (h : heap) (ds : list dial_event)
    (l lc lm : loc) (o oc : object) (pm : gmap string value) (args : list value) :
  h !! l = Some o →
  o_props o !! "modem" = Some (VRef lm) →
  h !! lm = Some (Obj (KInstance CModem) pm) →
  o_props o !! "container" = Some (VRef lc) →
  h !! lc = Some oc →
  arg 0 args = VUndefined ∨ is_object h (arg 0 args) →
  let cid := default VUndefined (o_props oc !! "id") in
  (∃ ev, dialed t M_ContainerFs_info (VRef l) args (State h ds) = [ev]
     ∧ c_method (d_call ev) = HEAD
     ∧ c_path (d_call ev) = "/containers/" +:+ to_string (d_heap ev) cid +:+ "/archive?"
     ∧ (∀ code, c_statusCodes (d_call ev) !! code = Some Accept ↔ code = 200%Z)
     ∧ is_reason (c_statusCodes (d_call ev) !! 404%Z)
     ∧ is_reason (c_statusCodes (d_call ev) !! 500%Z)
     ∧ c_statusCodes (d_call ev) !! 403%Z = None)
  ∧ (∃ ev, dialed t M_ContainerFs_get (VRef l) args (State h ds) = [ev]
     ∧ c_method (d_call ev) = GET
     ∧ c_path (d_call ev)
       = "/containers/" +:+ to_string (d_heap ev) cid +:+ "/archive?"
         +:+ "path=" +:+ to_string (d_heap ev)
                           (field (d_heap ev) (c_options (d_call ev)) "path") +:+ "&"
     ∧ (∀ code, c_statusCodes (d_call ev) !! code = Some Accept ↔ code = 200%Z)
     ∧ (∀ code, is_reason (c_statusCodes (d_call ev) !! code)
                ↔ code = 400%Z ∨ code = 404%Z ∨ code = 500%Z)
     ∧ c_statusCodes (d_call ev) !! 403%Z = None)
  ∧ (∃ ev, dialed t M_ContainerFs_put (VRef l) args (State h ds) = [ev]
     ∧ c_method (d_call ev) = PUT
     ∧ c_path (d_call ev) = "/containers/" +:+ to_string (d_heap ev) cid +:+ "/archive?"
     ∧ (∀ code, c_statusCodes (d_call ev) !! code = Some Accept ↔ code = 200%Z)
     ∧ (∀ code, is_reason (c_statusCodes (d_call ev) !! code)
                ↔ code = 400%Z ∨ code = 403%Z ∨ code = 404%Z ∨ code = 500%Z)).
Proof.
  intros H Hm Hlm Hc Hlc Hopts cid. unfold dialed. cbn [invoke]. split; [|split].
  - unfold ContainerFs_info. exec. known Hc. exec. one_dial.
    split; [done|]. split; [done|].
    split; [intros code; apply (table_archive_info code)|].
    split; [apply (table_archive_info 404%Z); auto|].
    split; [apply (table_archive_info 500%Z); auto|]. done.
  - unfold ContainerFs_get. exec.
    destruct Hopts as [->|(lo & oo & -> & Hlo)]; exec; known Hc; exec;
      one_dial.
    all: split; [done|]; split;
      [unfold field; first [by rewrite lookup_fresh | by rewrite Hlo]|].
    all: split; [intros code; apply (table_archive_get code)|].
    all: split; [intros code; apply (table_archive_get code)|]; done.
  - unfold ContainerFs_put. exec. known Hc. exec. one_dial.
    split; [done|]. split; [done|].
    split; intros code; apply (table_archive_put code).
Qed.

Lemma archive_descriptors_witness :
  ∃ ev, dialed quiet_daemon M_ContainerFs_put (VRef 4) [] (State example_heap []) = [ev]
     ∧ c_method (d_call ev) = PUT
     ∧ c_path (d_call ev) = "/containers/abc/archive?"
     ∧ is_reason (c_statusCodes (d_call ev) !! 403%Z).
Proof.
  destruct (archive_descriptors quiet_daemon example_heap [] 4 2 0
              (Obj (KInstance CContainerFs)
                   (<["container" := VRef 2]> (<["modem" := VRef 0]> ∅)))
              (Obj (KInstance CContainer) (Container_props 2 (VRef 0) (VStr "abc")))
              ∅ [] eq_refl eq_refl eq_refl eq_refl eq_refl (or_introl eq_refl))
    as (_ & _ & ev & Hd & Hm & Hp & _ & Hr).
  exists ev. split; [exact Hd|]. split; [exact Hm|]. split; [exact Hp|].
  apply Hr. right. left. reflexivity.
Defined.

(** C10.  [ContainerFs.get] puts [opts.path] into the request path as it
    is, between [/containers/{id}/archive?path=] and [&], and passes the
    same [opts] as the query options: a string [s] appears verbatim, and a
    missing [path] field, or a call with no argument, gives the text
    [path=undefined]. *)
Theorem archive_get_path (t : transport) (h : heap) (ds : list dial_event)
    (l lc lm : loc) (o oc : object) (pm : gmap string value) (args : list value) :
  h !! l = Some o →
  o_props o !! "modem" = Some (VRef lm) →
  h !! lm = Some (Obj (KInstance CModem) pm) →
  o_props o !! "container" = Some (VRef lc) →
  h !! lc = Some oc →
  let cid := default VUndefined (o_props oc !! "id") in
  (∀ lo oo, arg 0 args = VRef lo → h !! lo = Some oo →
     ∃ ev, dialed t M_ContainerFs_get (VRef l) args (State h ds) = [ev]
       ∧ d_heap ev = h
       ∧ c_options (d_call ev) = VRef lo
       ∧ c_path (d_call ev)
         = "/containers/" +:+ to_string h cid +:+ "/archive?path="
           +:+ to_string h (default VUndefined (o_props oo !! "path")) +:+ "&"
       ∧ (∀ s, o_props oo !! "path" = Some (VStr s) →
            c_path (d_call ev)
            = "/containers/" +:+ to_string h cid +:+ "/archive?path=" +:+ s +:+ "&")
       ∧ (o_props oo !! "path" = None →
            c_path (d_call ev)
            = "/containers/" +:+ to_string h cid +:+ "/archive?" +:+ "path=undefined"
              +:+ "&"))
  ∧ (arg 0 args = VUndefined →
     ∃ ev, dialed t M_ContainerFs_get (VRef l) args (State h ds) = [ev]
       ∧ d_heap ev = h ++ [Obj KPlain ∅]
       ∧ c_options (d_call ev) = VRef (length h)
       ∧ c_path (d_call ev)
         = "/containers/" +:+ to_string (d_heap ev) cid +:+ "/archive?"
           +:+ "path=undefined" +:+ "&").
Proof.
  intros H Hm Hlm Hc Hlc cid. unfold dialed. cbn [invoke]. unfold ContainerFs_get. split.
  - intros lo oo -> Hlo. exec. known Hc. exec. one_dial.
    split; [done|]. split; [done|]. split; [done|]. split.
    + intros s Hs. by rewrite Hs.
    + intros Hs. by rewrite Hs.
  - intros ->. exec. known Hc. exec. one_dial. done.
Qed.

Lemma archive_get_path_witness :
  ∃ ev, dialed quiet_daemon M_ContainerFs_get (VRef 4) [] (State example_heap []) = [ev]
    ∧ d_heap ev = example_heap ++ [Obj KPlain ∅]
    ∧ c_options (d_call ev) = VRef 6
    ∧ c_path (d_call ev) = "/containers/abc/archive?path=undefined&".
Proof.
  exact (proj2 (archive_get_path quiet_daemon example_heap [] 4 2 0
                  (Obj (KInstance CContainerFs)
                       (<["container" := VRef 2]> (<["modem" := VRef 0]> ∅)))
                  (Obj (KInstance CContainer) (Container_props 2 (VRef 0) (VStr "abc")))
                  ∅ [] eq_refl eq_refl eq_refl eq_refl eq_refl) eq_refl).
Defined.

Example archive_get_path_ex :
  (c_path ∘ d_call)
    <$> dialed quiet_daemon M_ContainerFs_get (VRef 4) [VRef 6]
          (State (example_heap ++ [Obj KPlain {[ "path" := VStr "/etc/a b" ]}]) [])
  = ["/containers/abc/archive?path=/etc/a b&"].
Proof. vm_compute. reflexivity. Qed.

(** * Handles made without the transport *)

(** C6.  [get(id)] of the container manager and of [ExecManager] leaves
    the dial log as it is and returns a new handle whose [id] is the
    argument; a container handle has no [data], an exec handle has the
    empty object [{}] as [data]. *)
Theorem get_is_local (h : heap) (ds : list dial_event) (l : loc) (o : object)
    (id : value) :
  h !! l = Some o →
  let n := length h in
  (∃ h',
     default_get (VRef l) [id] (State h ds) = (Val (VRef n), State h' ds)
     ∧ field h' (VRef n) "id" = id
     ∧ (∃ c, h' !! n = Some c ∧ o_kind c = KInstance CContainer
             ∧ o_props c !! "data" = None))
  ∧ (∃ h' d,
     ExecManager_get (VRef l) [id] (State h ds) = (Val (VRef n), State h' ds)
     ∧ field h' (VRef n) "id" = id
     ∧ (∃ e, h' !! n = Some e ∧ o_kind e = KInstance CExec)
     ∧ field h' (VRef n) "data" = VRef d
     ∧ h' !! d = Some (Obj KPlain ∅)).
Proof.
  intros H n. subst n. split.
  - unfold default_get. cbn [arg nth]. exec. rewrite new_Container_run.
    eexists. split; [reflexivity|]. unfold field. rewrite lookup_ext_0. cbn.
    split; [done|]. eexists. split; [reflexivity|]. done.
  - unfold ExecManager_get. cbn [arg nth]. exec. rewrite new_Exec_run.
    eexists _, _. split; [reflexivity|]. unfold field. rewrite lookup_ext_0. cbn.
    split; [done|]. split; [by eexists|]. split; [reflexivity|].
    rewrite lookup_app_r by lia. by replace (length h + 1 - length h) with 1 by lia.
Qed.

Lemma get_is_local_witness :
  ∃ h',
    default_get (VRef 1) [VStr "abc"]
      (State [Obj (KInstance CModem) ∅; Obj (KInstance CManager) {[ "modem" := VRef 0 ]}] [])
    = (Val (VRef 2), State h' [])
    ∧ field h' (VRef 2) "id" = VStr "abc"
    ∧ (∃ c, h' !! 2 = Some c ∧ o_kind c = KInstance CContainer
            ∧ o_props c !! "data" = None).
Proof.
  exact (proj1 (get_is_local
                  [Obj (KInstance CModem) ∅;
                   Obj (KInstance CManager) {[ "modem" := VRef 0 ]}]
                  [] 1 (Obj (KInstance CManager) {[ "modem" := VRef 0 ]})
                  (VStr "abc") eq_refl)).
Defined.

(** * [export] *)

(** The listeners of [export] never hand out the stream: the promise stays
    pending or resolves with a string. *)
Lemma consume_string events acc :
  consume events acc = Pending ∨ ∃ s, consume events acc = Resolved (VStr s).
Proof.
  revert acc. induction events as [|[chunk|] events IH]; intros acc; cbn.
  - by left.
  - apply IH.
  - right. by eexists.
Qed.

(** What [export] resolves with, in its two modes.  With [opts.stream]
    unset the descriptor does not ask for a stream and the promise
    resolves with the transport's data, untouched; with [opts.stream] set
    the descriptor asks for a stream, and the promise resolves once the
    stream ends, with the text of its chunks. *)
Lemma export_modes (t : transport) (h : heap) (ds : list dial_event)
    (l lo lm : loc) (o oo : object) (pm : gmap string value) :
  h !! l = Some o →
  o_props o !! "modem" = Some (VRef lm) →
  h !! lm = Some (Obj (KInstance CModem) pm) →
  h !! lo = Some oo →
  let stream := default VUndefined (o_props oo !! "stream") in
  let run := Container_export t (VRef l) [VRef lo] (State h ds) in
  ∃ ev, dialed t M_export (VRef l) [VRef lo] (State h ds) = [ev]
    ∧ d_heap ev = h
    ∧ c_isStream (d_call ev) = truthy stream
    ∧ (truthy (r_err (answer t ev)) = false →
       (truthy stream = false → run.1 = Val (Resolved (r_data (answer t ev))))
       ∧ (truthy stream = true →
          ∀ ls events p,
            r_data (answer t ev) = VRef ls →
            (h ++ r_fresh (answer t ev)) !! ls = Some (Obj (KStream events) p) →
            run.1 = Val (consume events []))).
Proof.
  intros H Hm Hlm Hlo stream run. subst run. unfold dialed. cbn [invoke].
  unfold Container_export. cbn [arg nth]. exec. fold stream.
  set (c := Call _ GET (VRef lo) (truthy stream) None None None _).
  set (cb := at_site InCallback _).
  assert (quiet cb) as Hq by (subst cb; solve_quiet).
  exists (Dial (VRef lm) c h). rewrite Hq. cbn [st_dials]. rewrite drop_snoc_all.
  split; [done|]. split; [done|]. split; [done|].
  unfold answer. cbn [d_call d_heap]. intros Herr. subst cb.
  rewrite at_site_run, Herr. exec. fold stream. split.
  - intros ->. cbn [negb]. by exec.
  - intros -> ls events p Hls Hstream. cbn [negb]. exec. rewrite Hls.
    rewrite (stream_events_ref _ _ _ _ _ Hstream). by exec.
Qed.

(** C1.  [export] with [opts.stream] set, against a daemon that answers a
    stream request with a live stream (location 7): the descriptor asks for
    a stream, and the promise resolves with the buffered text ["abcd"], not
    with the stream. *)
Theorem export_stream_requested_is_buffered :
  let h := example_heap ++ [Obj KPlain {[ "stream" := VBool true ]}] in
  let run := Container_export tar_daemon (VRef 2) [VRef 6] (State h []) in
  (∃ ev, st_dials run.2 = [ev]
     ∧ c_isStream (d_call ev) = true
     ∧ r_data (answer tar_daemon ev) = VRef 7
     ∧ st_heap run.2 !! 7 = Some (Obj (KStream [SData "ab"; SData "cd"; SEnd]) ∅))
  ∧ run.1 = Val (Resolved (VStr "abcd"))
  ∧ run.1 ≠ Val (Resolved (VRef 7)).
Proof.
  vm_compute. split; [|split; [reflexivity|discriminate]].
  eexists. split; [reflexivity|]. split; [reflexivity|]. split; reflexivity.
Qed.

(** * Errors of the transport *)


Lemma readable_get_prop v name st :
  readable (st_heap st) v → ∃ x, get_prop v name st = (Val x, st).
Proof.
  unfold readable, get_prop. destruct v; try done; try by eexists.
  intros [o ->]. by eexists.
Qed.

Lemma get_prop_readable v name st x st' :
  get_prop v name st = (Val x, st') → readable (st_heap st) v ∧ st' = st.
Proof.
  unfold readable, get_prop. destruct v; try (intros; by simplify_eq).
  destruct (st_heap st !! l) eqn:E; intros; by simplify_eq.
Qed.

Lemma readable_app h ext v : readable h v → readable (h ++ ext) v.
Proof.
  destruct v; try done. cbn. intros [o Ho]. exists o. by apply lookup_app_l_Some.
Qed.

Section RejectsOnError.

Variable t : transport.

Lemma rejects_on_error_bind {A} (m : M A) (f : A → M outcome) :
  quiet m → (∀ a, rejects_on_error t (f a)) → rejects_on_error t (bind m f).
Proof.
  intros Hm Hf st. rewrite bind_run. specialize (Hm st).
  destruct (m st) as [[a|s] st']; cbn [snd] in Hm.
  - destruct (Hf a st') as (new & Hd & Hlen & Hrej). exists new.
    by rewrite <- Hm.
  - exists []. cbn [snd fst length]. rewrite app_nil_r. split; [done|].
    split; [lia|]. intros ev Hev. by apply elem_of_nil in Hev.
Qed.

(** The heart of C4: the executor dials once; a callback that itself does
    not dial and that rejects with [err] whenever [err] is truthy makes the
    promise reject with the error the transport reported. *)
Lemma rejects_on_error_dial (this : value) (c : call) (cb : value → value → M outcome) :
  (∀ e d, quiet (cb e d)) →
  (∀ e d st, readable (st_heap st) this → truthy e = true →
     ∃ st', cb e d st = (Val (Rejected e), st')) →
  rejects_on_error t (dial t this c cb).
Proof.
  intros Hq Hrej st. unfold dial. rewrite bind_run, at_site_run.
  assert (∀ st0 : state, st_dials st0 = st_dials st →
            ∃ new : list dial_event,
              st_dials st0 = st_dials st ++ new ∧ (length new ≤ 1)%nat
              ∧ ∀ ev, ev ∈ new → truthy (r_err (answer t ev)) = true →
                  @Exn outcome InExecutor = Val (Rejected (r_err (answer t ev))))
    as Hnone.
  { intros st0 Hst0. exists []. rewrite app_nil_r. split; [done|].
    split; [cbn; lia|]. intros ev Hev. by apply elem_of_nil in Hev. }
  destruct (get_prop this "modem" st) as [[modem|s] st0] eqn:Hget.
  - apply get_prop_readable in Hget as [Hread ->]. rewrite bind_run, at_site_run.
    destruct (dial_method modem st) as [[[]|s] st0] eqn:Hdm.
    + assert (st0 = st) as ->.
      { unfold dial_method in Hdm. repeat case_match; by simplify_eq. }
      rewrite bind_run. cbv beta iota zeta.
      set (r := t c (st_heap st)).
      set (st1 := State (st_heap st ++ r_fresh r)
                        (st_dials st ++ [Dial modem c (st_heap st)])).
      exists [Dial modem c (st_heap st)].
      assert (st_dials (at_site InCallback (cb (r_err r) (r_data r)) st1).2
              = st_dials st ++ [Dial modem c (st_heap st)]) as Hd.
      { by rewrite (quiet_at_site _ _ (Hq _ _) st1). }
      split; [exact Hd|]. split; [done|].
      intros ev Hev%list_elem_of_singleton Herr. subst ev.
      unfold answer in *. cbn [d_call d_heap] in *. fold r in Herr |- *.
      destruct (Hrej (r_err r) (r_data r) st1) as [st' Hcb]; [|done|].
      { by apply readable_app. }
      rewrite at_site_run, Hcb. done.
    + apply Hnone. unfold dial_method in Hdm. repeat case_match; by simplify_eq.
  - apply Hnone. pose proof (quiet_get_prop this "modem" st) as Hsame.
    by rewrite Hget in Hsame.
Qed.

(** The callback [if (err) return reject(err); ...]. *)
Lemma rejects_first (e : value) (x : M outcome) st :
  truthy e = true →
  ∃ st', (if truthy e then ret (Rejected e) else x) st = (Val (Rejected e), st').
Proof. intros ->. by eexists. Qed.

(** The callback of [update]: the handle it builds first cannot fail. *)
Lemma update_callback_rejects (this e warnings : value) st :
  readable (st_heap st) this → truthy e = true →
  ∃ st',
    (m <- get_prop this "modem" ;;
     i <- get_prop this "id" ;;
     container <- new_Container m i ;;
     do set_prop container "Warnings" warnings ;;
     if truthy e then ret (Rejected e) else ret (Resolved container)) st
    = (Val (Rejected e), st').
Proof.
  intros Hread He. destruct st as [h ds].
  destruct (readable_get_prop this "modem" _ Hread) as [m Hm].
  destruct (readable_get_prop this "id" _ Hread) as [i Hi].
  rewrite bind_run, Hm, bind_run, Hi, bind_run, new_Container_run.
  rewrite bind_run. erewrite set_prop_fresh by reflexivity.
  rewrite He. by eexists.
Qed.

Ltac solve_rejects :=
  cbv zeta;
  repeat lazymatch goal with
         | |- rejects_on_error _ (bind _ _) =>
             apply rejects_on_error_bind; [solve [solve_quiet]|intros ?]
         end;
  apply rejects_on_error_dial;
  [ intros ? ?; solve [solve_quiet]
  | intros ? ? ? ? ?;
    first [ by apply rejects_first | by apply update_callback_rejects ] ].

Lemma invoke_rejects_on_error (m : method) (this : value) (args : list value) :
  rejects_on_error t (invoke t m this args).
Proof.
  destruct m; cbn [invoke];
    unfold Exec_create, Exec_start, Exec_resize, Exec_status, ExecManager_create,
      ContainerFs_info, ContainerFs_get, ContainerFs_put, Container_status,
      Container_top, Container_logs, Container_changes, Container_export,
      Container_stats, Container_resize, Container_start, Container_stop,
      Container_restart, Container_kill, Container_update, Container_rename,
      Container_pause, Container_unpause, Container_attach, Container_wsattach,
      Container_wait, Container_delete, Container_commit, default_list,
      default_create, default_prune, descriptor;
    solve_rejects.
Qed.

End RejectsOnError.

(** C4.  Whatever the method, the handle and the arguments: if the
    transport reports an error for a dial the method makes, that dial is
    the only one and the promise is rejected with that very error. *)
Theorem transport_error_rejects (t : transport) (m : method) (this : value)
    (args : list value) (st : state) (ev : dial_event) :
  ev ∈ dialed t m this args st →
  truthy (r_err (answer t ev)) = true →
  (invoke t m this args st).1 = Val (Rejected (r_err (answer t ev)))
  ∧ dialed t m this args st = [ev].
Proof.
  unfold dialed.
  destruct (invoke_rejects_on_error t m this args st) as (new & -> & Hlen & Hrej).
  rewrite drop_app_length. intros Hev Herr. split; [by apply Hrej|].
  destruct new as [|ev' [|ev'' new]]; cbn in Hlen; [|by apply list_elem_of_singleton in Hev; subst|lia].
  by apply elem_of_nil in Hev.
Qed.

Lemma transport_error_rejects_witness :
  (invoke failing_daemon M_delete (VRef 2) [] (State example_heap [])).1
  = Val (Rejected (VRef 6))
  ∧ length (dialed failing_daemon M_delete (VRef 2) [] (State example_heap [])) = 1.
Proof.
  pose (ev := Dial (VRef 0)
                (descriptor "/containers/abc?" DELETE VUndefined
                   {[ 204%Z := Accept; 400%Z := Reason "bad request";
                      404%Z := Reason "no such container";
                      500%Z := Reason "server error" ]})
                example_heap).
  destruct (transport_error_rejects failing_daemon M_delete (VRef 2) []
              (State example_heap []) ev) as [H1 H2].
  - vm_compute. constructor.
  - reflexivity.
  - split; [exact H1|]. rewrite H2. reflexivity.
Defined.

(** * What the operations write *)

Section Frame.

Lemma same_but_container_refl o : same_but_container o o.
Proof. by split. Qed.

Lemma frame_refl n h : frame n h h.
Proof. split; [done|]. intros l o _ H. exists o. split; [done|apply same_but_container_refl]. Qed.

Lemma frame_trans n h1 h2 h3 : frame n h1 h2 → frame n h2 h3 → frame n h1 h3.
Proof.
  intros [Hl1 H1] [Hl2 H2]. split; [lia|]. intros l o Hl Ho.
  destruct (H1 l o Hl Ho) as (o' & Ho' & [Hk Hp]).
  destruct (H2 l o' Hl Ho') as (o'' & Ho'' & [Hk' Hp']).
  exists o''. split; [done|]. split; [congruence|].
  intros name Hname. rewrite Hp' by done. by apply Hp.
Qed.

Lemma frame_app n h ext : frame n h (h ++ ext).
Proof.
  split; [rewrite length_app; lia|]. intros l o _ H. exists o.
  split; [by apply lookup_app_l_Some|apply same_but_container_refl].
Qed.

Lemma frame_insert_fresh n (h : heap) l o : (n ≤ l)%nat → frame n h (<[l := o]> h).
Proof.
  intros Hl. split; [by rewrite length_insert|]. intros l' o' Hl' H. exists o'.
  split; [|apply same_but_container_refl]. rewrite list_lookup_insert_ne by lia. done.
Qed.

Lemma frame_insert_container n (h : heap) l o x :
  h !! l = Some o →
  frame n h (<[l := Obj (o_kind o) (<["container" := x]> (o_props o))]> h).
Proof.
  intros Ho. split; [by rewrite length_insert|]. intros l' o' Hl' H.
  destruct (decide (l = l')) as [<-|Hne].
  - rewrite list_lookup_insert_eq by (by eapply lookup_lt_Some).
    eexists. split; [done|]. simplify_eq. split; [done|].
    intros name Hname. cbn. by rewrite lookup_insert_ne.
  - exists o'. rewrite list_lookup_insert_ne by done.
    split; [done|apply same_but_container_refl].
Qed.

(** Computations that leave the store as it is. *)
Lemma framed_pure {A} n (m : M A) (Q : A → Prop) :
  (∀ st, st_heap (m st).2 = st_heap st) →
  (∀ st a, (m st).1 = Val a → Q a) →
  framed n m Q.
Proof. intros Hh HQ st _. rewrite Hh. split; [apply frame_refl|apply HQ]. Qed.

Lemma framed_ret {A} n (a : A) (Q : A → Prop) : Q a → framed n (ret a) Q.
Proof. intros HQ. apply framed_pure; [done|]. intros st a' [= <-]. done. Qed.

Lemma framed_throw {A} n (Q : A → Prop) : framed n throw Q.
Proof. by apply framed_pure. Qed.

Lemma framed_weaken {A} n (m : M A) (Q R : A → Prop) :
  framed n m Q → (∀ a, Q a → R a) → framed n m R.
Proof. intros Hm HQR st Hn. destruct (Hm st Hn) as [Hf HQ]. split; [done|]. auto. Qed.

Lemma framed_bind {A B} n (m : M A) (f : A → M B) (Q : A → Prop) (R : B → Prop) :
  framed n m Q → (∀ a, Q a → framed n (f a) R) → framed n (bind m f) R.
Proof.
  intros Hm Hf st Hn. rewrite bind_run. destruct (Hm st Hn) as [Hfr HQ].
  destruct (m st) as [[a|s] st']; cbn [fst snd] in *; [|by split].
  destruct (Hf a (HQ a eq_refl) st') as [Hfr' HR]; [destruct Hfr; lia|].
  split; [by eapply frame_trans|done].
Qed.

Lemma framed_at_site {A} n s (m : M A) (Q : A → Prop) :
  framed n m Q → framed n (at_site s m) Q.
Proof.
  intros Hm st Hn. rewrite at_site_run. destruct (Hm st Hn) as [Hfr HQ].
  destruct (m st) as [[a|s'] st']; by split.
Qed.

Lemma framed_alloc n o : framed n (alloc o) (fresh n).
Proof.
  intros st Hn. split; [apply frame_app|]. intros a [= <-]. by eexists.
Qed.

Lemma framed_get_prop n v name : framed n (get_prop v name) (λ _, True).
Proof. apply framed_pure; [|done]. intros st. unfold get_prop. by repeat case_match. Qed.

Lemma framed_interpolate n v : framed n (interpolate v) (λ _, True).
Proof. by apply framed_pure. Qed.

Lemma framed_array_elems n v : framed n (array_elems v) (λ _, True).
Proof. apply framed_pure; [|done]. intros st. unfold array_elems. by repeat case_match. Qed.

Lemma framed_stream_events n v : framed n (stream_events v) (λ _, True).
Proof. apply framed_pure; [|done]. intros st. unfold stream_events. by repeat case_match. Qed.

Lemma framed_dial_method n v : framed n (dial_method v) (λ _, True).
Proof. apply framed_pure; [|done]. intros st. unfold dial_method. by repeat case_match. Qed.

Lemma framed_replace_sha256 n v : framed n (replace_sha256 v) (λ _, True).
Proof. destruct v; first [by apply framed_ret | by apply framed_throw]. Qed.

Lemma framed_default_obj n v : framed n (default_obj v) (λ _, True).
Proof.
  destruct v; try by apply framed_ret.
  eapply framed_weaken; [apply framed_alloc|done].
Qed.

(** A write goes to an object allocated by the operation itself, or to a
    [container] property. *)
Lemma framed_set_prop n v name x :
  fresh n v ∨ name = "container" → framed n (set_prop v name x) (λ _, True).
Proof.
  intros Hw st Hn. split; [|done]. unfold set_prop.
  destruct v; try apply frame_refl.
  destruct (st_heap st !! l) as [o|] eqn:Ho; [|apply frame_refl]. cbn [snd st_heap].
  destruct Hw as [(l' & [= <-] & Hl)| ->].
  - by apply frame_insert_fresh.
  - by apply frame_insert_container.
Qed.

Lemma framed_new_Container n m i : framed n (new_Container m i) (fresh n).
Proof.
  intros [h ds] Hn. rewrite new_Container_run. cbn [fst snd st_heap] in *.
  split; [apply frame_app|]. intros a [= <-]. by eexists.
Qed.

Lemma framed_new_Exec n m c i : framed n (new_Exec m c i) (fresh n).
Proof.
  intros [h ds] Hn. rewrite new_Exec_run. cbn [fst snd st_heap] in *.
  split; [apply frame_app|]. intros a [= <-]. by eexists.
Qed.

Lemma framed_new_Image n m i : framed n (new_Image m i) (fresh n).
Proof.
  intros [h ds] Hn. rewrite new_Image_run. cbn [fst snd st_heap] in *.
  split; [apply frame_app|]. intros a [= <-]. by eexists.
Qed.

Lemma framed_mapM {A B} n (f : A → M B) l :
  (∀ a, framed n (f a) (λ _, True)) → framed n (mapM f l) (λ _, True).
Proof.
  intros Hf. induction l as [|a l IH]; cbn [mapM]; [by apply framed_ret|].
  eapply framed_bind; [apply Hf|]. intros b _.
  eapply framed_bind; [apply IH|]. intros bs _. by apply framed_ret.
Qed.

Lemma framed_dial t n this c cb (Q : outcome → Prop) :
  (∀ e d, framed n (cb e d) Q) → framed n (dial t this c cb) Q.
Proof.
  intros Hcb. unfold dial.
  eapply framed_bind; [apply framed_at_site, framed_get_prop|]. intros modem _.
  eapply framed_bind; [apply framed_at_site, framed_dial_method|]. intros _ _.
  eapply framed_bind with (Q := λ r, True).
  - intros st Hn. cbn [fst snd st_heap]. split; [apply frame_app|done].
  - intros r _. apply framed_at_site, Hcb.
Qed.

End Frame.

(** One step of a frame proof, chosen by the shape of the code. *)
Ltac framed_step :=
  lazymatch goal with
  | |- framed _ (ret _) _ =>
      apply framed_ret; cbn [carries_snapshot];
      first [ done | by intros ? ? [= <-] ]
  | |- framed _ (dial _ _ _ _) _ => apply framed_dial; intros ? ?
  | |- framed _ (mapM _ _) _ => apply framed_mapM; intros ?
  | |- framed _ (if ?b then _ else _) _ => destruct b
  | |- framed _ (bind (mapM _ _) _) _ =>
      eapply framed_bind; [apply framed_mapM; intros ?|intros ? ?]
  | |- framed _ (bind (alloc _) _) _ =>
      eapply framed_bind; [apply framed_alloc|intros ? ?]
  | |- framed _ (bind (new_Container _ _) _) _ =>
      eapply framed_bind; [apply framed_new_Container|intros ? ?]
  | |- framed _ (bind (new_Exec _ _ _) _) _ =>
      eapply framed_bind; [apply framed_new_Exec|intros ? ?]
  | |- framed _ (bind (new_Image _ _) _) _ =>
      eapply framed_bind; [apply framed_new_Image|intros ? ?]
  | |- framed _ (bind (set_prop _ _ _) _) _ =>
      eapply framed_bind;
      [apply framed_set_prop; first [by left | by right]|intros ? ?]
  | |- framed _ (bind _ _) _ =>
      eapply framed_bind;
      [first [ apply framed_get_prop | apply framed_interpolate
             | apply framed_default_obj | apply framed_array_elems
             | apply framed_stream_events | apply framed_replace_sha256 ]
      |intros ? ?]
  end.

Lemma invoke_framed (t : transport) (n : nat) (m : method) (this : value)
    (args : list value) :
  framed n (invoke t m this args)
    (λ out, carries_snapshot m = true → ∀ v, out = Resolved v → fresh n v).
Proof.
  destruct m; cbn [invoke];
    unfold Exec_create, Exec_start, Exec_resize, Exec_status, ExecManager_create,
      ContainerFs_info, ContainerFs_get, ContainerFs_put, Container_status,
      Container_top, Container_logs, Container_changes, Container_export,
      Container_stats, Container_resize, Container_start, Container_stop,
      Container_restart, Container_kill, Container_update, Container_rename,
      Container_pause, Container_unpause, Container_attach, Container_wsattach,
      Container_wait, Container_delete, Container_commit, default_list,
      default_create, default_prune, descriptor;
    cbv zeta; repeat framed_step.
Qed.

Lemma get_framed (n : nat) (this : value) (args : list value) :
  framed n (default_get this args) (fresh n)
  ∧ framed n (ExecManager_get this args) (fresh n).
Proof.
  split.
  - unfold default_get. cbv zeta. framed_step. apply framed_new_Container.
  - unfold ExecManager_get. cbv zeta. do 2 framed_step. apply framed_new_Exec.
Qed.

Lemma frame_fields n h h' l o :
  frame n h h' → (l < n)%nat → h !! l = Some o →
  ∃ o', h' !! l = Some o' ∧ o_kind o' = o_kind o
        ∧ ∀ name, name ∈ handle_fields → o_props o' !! name = o_props o !! name.
Proof.
  intros [_ Hfr] Hl Ho. destruct (Hfr l o Hl Ho) as (o' & Ho' & Hk & Hp).
  exists o'. split; [done|]. split; [done|]. intros name Hname. apply Hp.
  intros ->. unfold handle_fields in Hname.
  repeat (apply elem_of_cons in Hname as [Hname|Hname]; [discriminate|]).
  by apply elem_of_nil in Hname.
Qed.

(** C9.  Whatever the method, the arguments, the transport's answer and
    the outcome, the object the method is invoked on has the same [modem],
    [id], [data] and [Warnings] afterwards; and a method that brings back a
    decoded representation resolves with an object that did not exist
    before the call.  The same holds of the two [get]s. *)
Theorem handles_are_never_written (t : transport) (m : method) (l : loc) (o : object)
    (args : list value) (st : state) :
  st_heap st !! l = Some o →
  (∃ o', st_heap (invoke t m (VRef l) args st).2 !! l = Some o'
         ∧ o_kind o' = o_kind o
         ∧ ∀ name, name ∈ handle_fields → o_props o' !! name = o_props o !! name)
  ∧ (carries_snapshot m = true →
     ∀ v, (invoke t m (VRef l) args st).1 = Val (Resolved v) →
       ∃ c, v = VRef c ∧ (length (st_heap st) ≤ c)%nat)
  ∧ (∃ o', st_heap (default_get (VRef l) args st).2 !! l = Some o'
         ∧ o_kind o' = o_kind o
         ∧ ∀ name, name ∈ handle_fields → o_props o' !! name = o_props o !! name)
  ∧ (∃ o', st_heap (ExecManager_get (VRef l) args st).2 !! l = Some o'
         ∧ o_kind o' = o_kind o
         ∧ ∀ name, name ∈ handle_fields → o_props o' !! name = o_props o !! name).
Proof.
  intros Ho. pose proof (lookup_lt_Some _ _ _ Ho) as Hl.
  destruct (invoke_framed t (length (st_heap st)) m (VRef l) args st) as [Hfr HQ]; [done|].
  destruct (get_framed (length (st_heap st)) (VRef l) args) as [Hg He].
  destruct (Hg st) as [Hfg _]; [done|]. destruct (He st) as [Hfe _]; [done|].
  split; [by eapply frame_fields|]. split; [|split; by eapply frame_fields].
  intros Hc v Hv. by apply (HQ (Resolved v)).
Qed.

Lemma handles_are_never_written_witness :
  ∃ o', st_heap (invoke quiet_daemon M_commit (VRef 2) [VRef 2] (State example_heap [])).2
          !! 2 = Some o'
        ∧ o_kind o' = KInstance CContainer
        ∧ ∀ name, name ∈ handle_fields →
            o_props o' !! name = Container_props 2 (VRef 0) (VStr "abc") !! name.
Proof.
  exact (proj1 (handles_are_never_written quiet_daemon M_commit 2
                  (Obj (KInstance CContainer) (Container_props 2 (VRef 0) (VStr "abc")))
                  [VRef 2] (State example_heap []) eq_refl)).
Defined.

(** * State transitions *)

(** C5, as the claim states it, fails on [update]: called on a handle
    that holds a snapshot, it resolves with a new handle of the same [id]
    that holds none. *)
Lemma update_drops_the_snapshot :
  let run := Container_update quiet_daemon (VRef 2) []
               (State example_heap_with_snapshot []) in
  run.1 = Val (Resolved (VRef 7))
  ∧ field (st_heap run.2) (VRef 7) "id" = field example_heap_with_snapshot (VRef 2) "id"
  ∧ field example_heap_with_snapshot (VRef 2) "data" = VRef 6
  ∧ field (st_heap run.2) (VRef 7) "data" = VUndefined
  ∧ field (st_heap run.2) (VRef 7) "data" ≠ field example_heap_with_snapshot (VRef 2) "data".
Proof. vm_compute. repeat split; done. Qed.

(** C5, amended.  Without a transport error, [start], [stop], [restart],
    [kill], [pause], [unpause] and [rename] resolve with the handle they
    were called on, and the store only grows; [update] resolves with a new
    [Container] made from the same [modem] and [id], whose [Warnings] is
    what the daemon returned and which has no [data]. *)
Theorem state_transitions_resolve (t : transport) (h : heap) (ds : list dial_event)
    (l lm : loc) (o : object) (pm : gmap string value) (args : list value) :
  h !! l = Some o →
  o_props o !! "modem" = Some (VRef lm) →
  h !! lm = Some (Obj (KInstance CModem) pm) →
  (∀ m, resolves_this m = true →
     ∃ ev ext, dialed t m (VRef l) args (State h ds) = [ev]
       ∧ st_heap (invoke t m (VRef l) args (State h ds)).2 = h ++ ext
       ∧ (truthy (r_err (answer t ev)) = false →
          (invoke t m (VRef l) args (State h ds)).1 = Val (Resolved (VRef l))))
  ∧ (∃ ev, dialed t M_update (VRef l) args (State h ds) = [ev]
       ∧ d_heap ev = h
       ∧ (truthy (r_err (answer t ev)) = false →
          let c := length (h ++ r_fresh (answer t ev)) in
          let modem := VRef lm in
          let id := default VUndefined (o_props o !! "id") in
          (invoke t M_update (VRef l) args (State h ds)).1 = Val (Resolved (VRef c))
          ∧ st_heap (invoke t M_update (VRef l) args (State h ds)).2
            = (h ++ r_fresh (answer t ev))
              ++ Obj (KInstance CContainer)
                     (<["Warnings" := r_data (answer t ev)]> (Container_props c modem id))
                 :: Container_parts c modem
          ∧ Container_props c modem id !! "data" = None)).
Proof.
  intros H Hmodem Hlm. split.
  - intros m Hm. unfold dialed.
    destruct m; try discriminate Hm; cbn [invoke];
      unfold Container_start, Container_stop, Container_restart, Container_kill,
        Container_rename, Container_pause, Container_unpause;
      cbv zeta; exec; try (destruct (arg 0 args); exec);
      cbn [fst snd st_heap st_dials]; rewrite drop_snoc_all;
      eexists _, _; (split; [reflexivity|]);
      (split; [first [rewrite <- app_assoc; reflexivity | reflexivity]|]);
      unfold answer; cbn [d_call d_heap]; by intros ->.
  - unfold dialed. cbn [invoke]. unfold Container_update. cbv zeta. exec.
    rewrite at_site_run. exec. known Hmodem. rewrite new_Container_run. exec.
    erewrite set_prop_fresh by reflexivity. cbn [insert list_insert o_kind o_props].
    exec. one_dial. split; [done|]. unfold answer. cbn [d_call d_heap descriptor].
    intros ->. done.
Qed.

Lemma state_transitions_resolve_witness :
  ∃ ev ext, dialed quiet_daemon M_pause (VRef 2) [] (State example_heap []) = [ev]
    ∧ st_heap (invoke quiet_daemon M_pause (VRef 2) [] (State example_heap [])).2
      = example_heap ++ ext
    ∧ (truthy (r_err (answer quiet_daemon ev)) = false →
       (invoke quiet_daemon M_pause (VRef 2) [] (State example_heap [])).1
       = Val (Resolved (VRef 2))).
Proof.
  exact (proj1 (state_transitions_resolve quiet_daemon example_heap [] 2 0
                  (Obj (KInstance CContainer) (Container_props 2 (VRef 0) (VStr "abc")))
                  ∅ [] eq_refl eq_refl eq_refl) M_pause eq_refl).
Defined.

(** * [commit] *)

Lemma append_cons c (a b : string) : String c a +:+ b = String c (a +:+ b).
Proof. reflexivity. Qed.

Lemma append_nil_l (s : string) : "" +:+ s = s.
Proof. reflexivity. Qed.

Lemma strip_prefix_Some pat s rest :
  strip_prefix pat s = Some rest ↔ s = pat +:+ rest.
Proof.
  revert s. induction pat as [|a pat IH]; intros s; cbn [strip_prefix].
  - rewrite append_nil_l. split; intros; by simplify_eq.
  - rewrite append_cons. destruct s as [|b s]; [done|].
    destruct (Ascii.eqb_spec a b) as [->|Hne].
    + rewrite IH. split; intros; by simplify_eq.
    + split; intros; by simplify_eq.
Qed.

Lemma strip_prefix_None pat s :
  strip_prefix pat s = None → ∀ rest, s ≠ pat +:+ rest.
Proof.
  intros Hn rest Hs. apply strip_prefix_Some in Hs. congruence.
Qed.

(** [remove_first] removes the first occurrence of the pattern, and
    nothing if there is none. *)
Lemma remove_first_correct pat s :
  first_occurrence_removed pat s (remove_first pat s).
Proof.
  induction s as [|c s IH]; cbn [remove_first].
  - destruct (strip_prefix pat "") as [rest|] eqn:Hp.
    + left. exists "", rest. apply strip_prefix_Some in Hp.
      rewrite !append_nil_l. split; [done|]. split; [done|]. intros; cbn; lia.
    + right. split; [|done]. intros [|c pre] post Hs.
      * rewrite append_nil_l in Hs. by eapply strip_prefix_None.
      * discriminate.
  - destruct (strip_prefix pat (String c s)) as [rest|] eqn:Hp.
    + left. exists "", rest. apply strip_prefix_Some in Hp.
      rewrite !append_nil_l. split; [done|]. split; [done|]. intros; cbn; lia.
    + destruct IH as [(pre & post & Hs & Hr & Hmin)|[Hno Hr]].
      * left. exists (String c pre), post. rewrite Hr, !append_cons.
        split; [by rewrite Hs|].
        split; [done|]. intros [|c' pre'] post' Hs'.
        -- rewrite append_nil_l in Hs'. by eapply strip_prefix_None in Hp.
        -- rewrite append_cons in Hs'. injection Hs' as <- Hs'. cbn.
           apply Hmin in Hs'. lia.
      * right. rewrite Hr. split; [|done]. intros [|c' pre'] post' Hs'.
        -- rewrite append_nil_l in Hs'. by eapply strip_prefix_None in Hp.
        -- rewrite append_cons in Hs'. injection Hs' as <- Hs'. by eapply Hno.
Qed.

Example remove_first_ex :
  remove_first "sha256:" "sha256:0123sha256:ab" = "0123sha256:ab"
  ∧ remove_first "sha256:" "x-sha256:0123" = "x-0123"
  ∧ remove_first "sha256:" "0123" = "0123".
Proof. repeat split. Qed.

(** C8.  [commit] called with an options record writes the handle's [id]
    into the record's [container] property, whatever was there, and dials
    with that record, so written; if the transport then reports no error and
    its data has a string [Id], the promise resolves with a new [Image]
    whose [id] is that string with the first occurrence of ["sha256:"]
    removed. *)
Theorem commit_writes_container (t : transport) (h : heap) (ds : list dial_event)
    (l lo lm : loc) (o oo : object) (pm : gmap string value) :
  h !! l = Some o →
  o_props o !! "modem" = Some (VRef lm) →
  h !! lm = Some (Obj (KInstance CModem) pm) →
  h !! lo = Some oo →
  let id := default VUndefined (o_props o !! "id") in
  let h1 := <[lo := Obj (o_kind oo) (<["container" := id]> (o_props oo))]> h in
  let run := Container_commit t (VRef l) [VRef lo] (State h ds) in
  ∃ ev, dialed t M_commit (VRef l) [VRef lo] (State h ds) = [ev]
    ∧ d_heap ev = h1
    ∧ c_options (d_call ev) = VRef lo
    ∧ field (d_heap ev) (VRef lo) "container" = id
    ∧ (truthy (r_err (answer t ev)) = false →
       ∀ lr or s,
         r_data (answer t ev) = VRef lr →
         (h1 ++ r_fresh (answer t ev)) !! lr = Some or →
         o_props or !! "Id" = Some (VStr s) →
         let n := length (h1 ++ r_fresh (answer t ev)) in
         ∃ iid,
           run.1 = Val (Resolved (VRef n))
           ∧ st_heap run.2 !! n
             = Some (Obj (KInstance CImage)
                         (<["id" := VStr iid]> (<["modem" := VRef lm]> ∅)))
           ∧ iid = remove_first "sha256:" s
           ∧ first_occurrence_removed "sha256:" s iid).
Proof.
  intros H Hm Hlm Hlo id h1 run. subst run. unfold dialed. cbn [invoke].
  unfold Container_commit. cbn [arg nth]. cbv zeta. exec.
  rewrite (set_prop_ref _ _ _ _ _ _ Hlo). fold id h1.
  assert (h1 !! lo = Some (Obj (o_kind oo) (<["container" := id]> (o_props oo)))) as Hlo1.
  { subst h1. by rewrite list_lookup_insert_eq by (by eapply lookup_lt_Some). }
  assert (∀ l' o', h !! l' = Some o' →
            ∃ o1, h1 !! l' = Some o1 ∧ o_kind o1 = o_kind o'
                  ∧ o_props o1 !! "modem" = o_props o' !! "modem") as Hkeep.
  { intros l' o' Ho'. destruct (decide (lo = l')) as [<-|Hne].
    - rewrite Hlo1. eexists. split; [done|]. simplify_eq. split; [done|].
      cbn. by rewrite lookup_insert_ne.
    - exists o'. subst h1. by rewrite list_lookup_insert_ne. }
  destruct (Hkeep l o H) as (o1 & Hl1 & _ & Hm1). rewrite Hm in Hm1.
  destruct (Hkeep lm _ Hlm) as ([k1 pm1] & Hlm1 & Hk1 & _). cbn in Hk1. subst k1.
  exec.
  set (c := descriptor "/commit?" POST (VRef lo) _).
  set (cb := at_site InCallback _).
  assert (quiet cb) as Hq by (subst cb; solve_quiet).
  exists (Dial (VRef lm) c h1). rewrite Hq. cbn [st_dials]. rewrite drop_snoc_all.
  split; [done|]. split; [done|]. split; [done|].
  split; [by rewrite (field_ref _ _ _ _ Hlo1); cbn; rewrite lookup_insert_eq|].
  unfold answer. cbn [d_call d_heap].
  intros Herr lr or s Hlr Hor Hid. subst cb.
  rewrite at_site_run, Herr. exec. known Hm1. rewrite Hlr. exec. known Hid.
  cbn [replace_sha256]. exec. rewrite new_Image_run. exec.
  exists (remove_first "sha256:" s). split; [done|]. cbn [snd st_heap].
  split; [by rewrite lookup_fresh|]. split; [done|]. apply remove_first_correct.
Qed.

Lemma commit_writes_container_witness :
  let run := Container_commit commit_daemon (VRef 2) [VRef 6]
               (State example_heap_with_opts []) in
  ∃ ev, dialed commit_daemon M_commit (VRef 2) [VRef 6]
          (State example_heap_with_opts []) = [ev]
    ∧ field (d_heap ev) (VRef 6) "container" = VStr "abc"
    ∧ run.1 = Val (Resolved (VRef 8))
    ∧ st_heap run.2 !! 8
      = Some (Obj (KInstance CImage)
                  (<["id" := VStr "0123abcd"]> (<["modem" := VRef 0]> ∅))).
Proof.
  intros run.
  destruct (commit_writes_container commit_daemon example_heap_with_opts [] 2 6 0
              (Obj (KInstance CContainer) (Container_props 2 (VRef 0) (VStr "abc")))
              (Obj KPlain {[ "container" := VStr "other"; "repo" := VStr "r" ]})
              ∅ eq_refl eq_refl eq_refl eq_refl)
    as (ev & Hd & Hh & _ & Hc & Hres).
  destruct (Hres eq_refl 7 (Obj KPlain {[ "Id" := VStr "sha256:0123abcd" ]})
              "sha256:0123abcd") as (iid & Hrun & Himg & Hiid & _).
  - unfold answer, commit_daemon. cbn [r_data]. rewrite Hh. reflexivity.
  - reflexivity.
  - reflexivity.
  - exists ev. split; [exact Hd|]. split; [exact Hc|]. split; [exact Hrun|].
    rewrite Hiid in Himg. exact Himg.
Defined.

(** * [list] *)

Section List.

Lemma handles_from_length n elems : length (handles_from n elems) = length elems.
Proof. revert n. induction elems as [|conf elems IH]; intros n; cbn; [done|]. by rewrite IH. Qed.

Lemma handles_from_lookup n elems i conf :
  elems !! i = Some conf → handles_from n elems !! i = Some (VRef (n + 4 * i)).
Proof.
  revert n i. induction elems as [|c elems IH]; intros n [|i] H; try done;
    cbn [handles_from].
  - cbn. do 2 f_equal. lia.
  - change (handles_from (n + 4) elems !! i = Some (VRef (n + 4 * S i))).
    rewrite (IH (n + 4) i H). do 2 f_equal. lia.
Qed.

Lemma handle_objects_length n modem h elems :
  length (handle_objects n modem h elems) = 4 * length elems.
Proof.
  revert n. induction elems as [|conf elems IH]; intros n; cbn [handle_objects]; [done|].
  rewrite length_app, IH. cbn. lia.
Qed.

Lemma handle_objects_lookup n modem h elems i conf :
  elems !! i = Some conf →
  handle_objects n modem h elems !! (4 * i)
  = Some (Obj (KInstance CContainer)
              (<["data" := conf]> (Container_props (n + 4 * i) modem (field h conf "Id")))).
Proof.
  revert n i. induction elems as [|c elems IH]; intros n [|i] H; try done;
    cbn [handle_objects].
  - cbn in H. injection H as ->. cbn. do 4 f_equal; lia.
  - cbn in H. rewrite lookup_app_r by (cbn; lia).
    replace (4 * S i - length (Obj (KInstance CContainer)
       (<["data" := c]> (Container_props n modem (field h c "Id")))
       :: Container_parts n modem)) with (4 * i) by (cbn; lia).
    rewrite (IH (n + 4) i H). do 4 f_equal; lia.
Qed.

Lemma field_app h ext v name : is_object h v → field (h ++ ext) v name = field h v name.
Proof.
  intros (l & o & -> & Ho). unfold field.
  by rewrite (lookup_app_l_Some _ _ _ _ Ho), Ho.
Qed.

Lemma get_prop_field h ds v name :
  is_object h v → get_prop v name (State h ds) = (Val (field h v name), State h ds).
Proof.
  intros (l & o & -> & Ho). rewrite (get_prop_ref _ _ _ _ _ Ho).
  by rewrite (field_ref _ _ _ _ Ho).
Qed.

Lemma is_object_app h ext v : is_object h v → is_object (h ++ ext) v.
Proof. intros (l & o & -> & Ho). exists l, o. split; [done|]. by apply lookup_app_l_Some. Qed.

(** The loop of [list]: one handle per element, in the order of the
    array, each holding its element as [data]. *)
Lemma mapM_handles (this : value) (h0 : heap) (ds : list dial_event) (elems : list value) :
  is_object h0 this →
  Forall (is_object h0) elems →
  ∀ ext,
    mapM (fun conf =>
            m <- get_prop this "modem" ;;
            id <- get_prop conf "Id" ;;
            container <- new_Container m id ;;
            do set_prop container "data" conf ;;
            ret container) elems (State (h0 ++ ext) ds)
    = (Val (handles_from (length (h0 ++ ext)) elems),
       State ((h0 ++ ext)
              ++ handle_objects (length (h0 ++ ext)) (field h0 this "modem") h0 elems) ds).
Proof.
  intros Hthis Helems. induction Helems as [|conf elems Hconf Helems IH]; intros ext.
  - cbn [mapM handles_from handle_objects]. by rewrite app_nil_r.
  - cbn [mapM handles_from handle_objects].
    rewrite bind_run, bind_run.
    rewrite (get_prop_field _ _ _ _ (is_object_app _ ext _ Hthis)).
    rewrite (field_app _ _ _ _ Hthis). cbv beta iota. rewrite bind_run.
    rewrite (get_prop_field _ _ _ _ (is_object_app _ ext _ Hconf)).
    rewrite (field_app _ _ _ _ Hconf). cbv beta iota.
    rewrite bind_run, new_Container_run. cbv beta iota.
    rewrite bind_run. erewrite set_prop_fresh by reflexivity.
    cbn [insert list_insert o_kind o_props Container_objects]. cbv beta iota.
    rewrite ret_run. cbv beta iota. rewrite bind_run.
    rewrite <- (app_assoc h0 ext). rewrite IH. cbv beta iota. rewrite ret_run.
    rewrite !length_app. cbn [length Container_parts].
    rewrite <- !app_assoc.
    replace (length h0 + (length ext + 4)) with (length h0 + length ext + 4) by lia.
    reflexivity.
Qed.

End List.

Lemma array_elems_ref h ds l elems p :
  h !! l = Some (Obj (KArray elems) p) →
  array_elems (VRef l) (State h ds) = (Val elems, State h ds).
Proof. intros H. unfold array_elems. cbn [st_heap]. by rewrite H. Qed.

(** C3.  When the transport answers [list] with no error and an array of
    decoded records, [list] resolves with a new array of the same length;
    its i-th element is a [Container] whose [id] is the [Id] of the i-th
    record and whose [data] is the i-th record itself. *)
Theorem list_keeps_the_order (t : transport) (h : heap) (ds : list dial_event)
    (l lm : loc) (o : object) (pm : gmap string value) (args : list value) :
  h !! l = Some o →
  o_props o !! "modem" = Some (VRef lm) →
  h !! lm = Some (Obj (KInstance CModem) pm) →
  let run := default_list t (VRef l) args (State h ds) in
  ∃ ev, dialed t M_list (VRef l) args (State h ds) = [ev]
    ∧ d_heap ev = h
    ∧ (truthy (r_err (answer t ev)) = false →
       ∀ la elems p,
         let h1 := h ++ r_fresh (answer t ev) in
         r_data (answer t ev) = VRef la →
         h1 !! la = Some (Obj (KArray elems) p) →
         Forall (is_object h1) elems →
         ∃ lr handles,
           run.1 = Val (Resolved (VRef lr))
           ∧ st_heap run.2 !! lr = Some (Obj (KArray handles) ∅)
           ∧ length handles = length elems
           ∧ ∀ i conf, elems !! i = Some conf →
               ∃ c hc, handles !! i = Some (VRef c)
                 ∧ st_heap run.2 !! c = Some hc
                 ∧ o_kind hc = KInstance CContainer
                 ∧ field (st_heap run.2) (VRef c) "id" = field h1 conf "Id"
                 ∧ field (st_heap run.2) (VRef c) "data" = conf).
Proof.
  intros H Hm Hlm run. subst run. unfold dialed. cbn [invoke]. unfold default_list.
  cbv zeta. exec.
  set (c := descriptor "/containers/json?" GET (arg 0 args) _).
  set (modem := VRef lm).
  set (cb := at_site InCallback _).
  assert (quiet cb) as Hq by (subst cb; solve_quiet).
  exists (Dial modem c h). rewrite Hq. cbn [st_dials]. rewrite drop_snoc_all.
  split; [done|]. split; [done|]. unfold answer. cbn [d_call d_heap].
  intros Herr la elems p Hla Hh1 Hall. subst cb.
  set (h1 := h ++ r_fresh (t c h)) in *.
  rewrite at_site_run, Herr, bind_run, Hla.
  rewrite (array_elems_ref _ _ _ _ _ Hh1). cbv beta iota. rewrite bind_run.
  pose proof (mapM_handles (VRef l) h1 (ds ++ [Dial modem c h]) elems) as Hmap.
  specialize (Hmap ltac:(by eexists l, o; split; [|apply lookup_app_l_Some]) Hall []).
  rewrite app_nil_r in Hmap. rewrite Hmap. clear Hmap. cbv beta iota. exec.
  set (n := length h1).
  set (objs := handle_objects n (field h1 (VRef l) "modem") h1 elems).
  eexists _, _. split; [reflexivity|]. cbn [snd st_heap].
  split; [by rewrite lookup_fresh|]. split; [apply handles_from_length|].
  intros i conf Hi. exists (n + 4 * i).
  pose proof (handle_objects_lookup n (field h1 (VRef l) "modem") h1 elems i conf Hi)
    as Hobj. fold objs in Hobj.
  assert (((h1 ++ objs) ++ [Obj (KArray (handles_from n elems)) ∅]) !! (n + 4 * i)
          = objs !! (4 * i)) as Hlook.
  { rewrite lookup_app_l
      by (rewrite length_app; apply lookup_lt_Some in Hobj; subst n; lia).
    rewrite lookup_app_r by (subst n; lia). f_equal. subst n. lia. }
  eexists. split; [by apply (handles_from_lookup n elems i conf)|].
  split; [by rewrite Hlook, Hobj|]. split; [done|].
  unfold field at 1 3. rewrite Hlook, Hobj. done.
Qed.

Lemma list_keeps_the_order_witness :
  let run := default_list inventory_daemon (VRef 1) [] (State example_heap []) in
  ∃ lr handles,
    run.1 = Val (Resolved (VRef lr))
    ∧ st_heap run.2 !! lr = Some (Obj (KArray handles) ∅)
    ∧ length handles = 2
    ∧ (∃ c, handles !! 0 = Some (VRef c)
            ∧ field (st_heap run.2) (VRef c) "id" = VStr "zz"
            ∧ field (st_heap run.2) (VRef c) "data" = VRef 7)
    ∧ (∃ c, handles !! 1 = Some (VRef c)
            ∧ field (st_heap run.2) (VRef c) "id" = VStr "aa"
            ∧ field (st_heap run.2) (VRef c) "data" = VRef 8).
Proof.
  intros run.
  destruct (list_keeps_the_order inventory_daemon example_heap [] 1 0
              (Obj (KInstance CManager) {[ "modem" := VRef 0 ]}) ∅ [] eq_refl
              eq_refl eq_refl)
    as (ev & _ & Hh & Hres).
  unfold answer in Hres. rewrite Hh in Hres.
  destruct (Hres eq_refl 6 [VRef 7; VRef 8] ∅ eq_refl eq_refl)
    as (lr & handles & Hrun & Harr & Hlen & Hall).
  - repeat constructor; eexists _, _; split; reflexivity.
  - exists lr, handles. split; [exact Hrun|]. split; [exact Harr|]. split; [exact Hlen|].
    destruct (Hall 0 (VRef 7) eq_refl) as (c0 & hc0 & H0 & _ & _ & Hid0 & Hdata0).
    destruct (Hall 1 (VRef 8) eq_refl) as (c1 & hc1 & H1 & _ & _ & Hid1 & Hdata1).
    split; [exists c0|exists c1]; (split; [assumption|]); (split; assumption).
Defined.

Example list_ex :
  let run := default_list inventory_daemon (VRef 1) [] (State example_heap []) in
  run.1 = Val (Resolved (VRef 17))
  ∧ (o_kind <$> st_heap run.2 !! 17) = Some (KArray [VRef 9; VRef 13])
  ∧ field (st_heap run.2) (VRef 9) "id" = VStr "zz"
  ∧ field (st_heap run.2) (VRef 13) "id" = VStr "aa".
Proof. vm_compute. repeat split. Qed.

(** * Edges of the model *)

(** [commit(null)]: the default [{}] is not taken, the write to [null]
    throws in the method body, and nothing is dialed. *)
Example commit_null_throws :
  Container_commit quiet_daemon (VRef 2) [VNull] (State example_heap [])
  = (Exn InCall, State example_heap []).
Proof. reflexivity. Qed.

(** A handle built without a modem: the executor throws, so the promise is
    rejected with the [TypeError] and nothing is dialed. *)
Example start_without_modem :
  let h := [Obj (KInstance CContainer) (Container_props 0 VUndefined (VStr "abc"))] in
  (Container_start quiet_daemon (VRef 0) [] (State h [])).1 = Exn InExecutor
  ∧ st_dials (Container_start quiet_daemon (VRef 0) [] (State h [])).2 = [].
Proof. split; reflexivity. Qed.

(** [list] answered with an array that holds [null]: [conf.Id] throws in
    the callback, after the dial. *)
Example list_of_null_throws :
  let daemon : transport :=
    fun _ h => Response VNull (VRef (length h)) [Obj (KArray [VNull]) ∅] in
  (default_list daemon (VRef 1) [] (State example_heap [])).1 = Exn InCallback
  ∧ length (st_dials (default_list daemon (VRef 1) [] (State example_heap [])).2) = 1.
Proof. split; reflexivity. Qed.

(** [export] of a stream that never ends stays pending. *)
Example export_never_ending :
  let daemon : transport :=
    fun _ h => Response VNull (VRef (length h)) [Obj (KStream [SData "ab"]) ∅] in
  (Container_export daemon (VRef 2) [VRef 6]
     (State (example_heap ++ [Obj KPlain {[ "stream" := VBool true ]}]) [])).1
  = Val Pending.
Proof. reflexivity. Qed.

(** * Further properties: every dial *)

Section EveryDial.

Context {A : Type} (P : dial_event → Prop).

Lemma every_dial_quiet (m : M A) : quiet m → every_dial P m.
Proof. intros Hq st. exists []. rewrite app_nil_r. split; [apply Hq|constructor]. Qed.

Lemma every_dial_bind {B} (m : M B) (f : B → M A) :
  quiet m → (∀ b, every_dial P (f b)) → every_dial P (bind m f).
Proof.
  intros Hm Hf st. rewrite bind_run. specialize (Hm st).
  destruct (m st) as [[b|s] st']; cbn [snd] in Hm.
  - destruct (Hf b st') as (new & Hd & HP). exists new. by rewrite <- Hm.
  - exists []. rewrite app_nil_r. split; [done|constructor].
Qed.

End EveryDial.

(** The executor dials on what [this.modem] holds, if that is a [Modem]. *)
Lemma every_dial_dial (t : transport) (P : dial_event → Prop) (this : value)
    (c : call) (cb : value → value → M outcome) :
  (∀ e d, quiet (cb e d)) →
  (∀ h modem, is_modem h modem → modem = field h this "modem" → P (Dial modem c h)) →
  every_dial P (dial t this c cb).
Proof.
  intros Hq HP st. unfold dial. rewrite bind_run, at_site_run.
  destruct (get_prop this "modem" st) as [[modem|s] st0] eqn:Hget.
  - assert (st0 = st ∧ modem = field (st_heap st) this "modem") as [-> Hmodem].
    { unfold get_prop, field in *. repeat case_match; by simplify_eq. }
    rewrite bind_run, at_site_run.
    destruct (dial_method modem st) as [[[]|s] st0] eqn:Hdm.
    + assert (st0 = st ∧ is_modem (st_heap st) modem) as [-> Hism].
      { unfold dial_method in Hdm. repeat case_match; simplify_eq.
        split; [done|]. by eexists _, _. }
      rewrite bind_run. cbv beta iota zeta.
      exists [Dial modem c (st_heap st)].
      rewrite (quiet_at_site _ _ (Hq _ _)). split; [done|].
      constructor; [|constructor]. by apply HP.
    + exists []. rewrite app_nil_r. split; [|constructor].
      unfold dial_method in Hdm. repeat case_match; by simplify_eq.
  - exists []. rewrite app_nil_r. split; [|constructor].
    pose proof (quiet_get_prop this "modem" st) as Hsame. by rewrite Hget in Hsame.
Qed.

(** A literal table is sane: its first entry is an accepted code, and
    each entry is in its class. *)
Ltac table_sane :=
  split;
  [ eexists; apply lookup_insert_eq
  | intros ? ?;
    repeat (rewrite lookup_insert; case_decide;
            [intros [= <-]; subst; first [lia | split; [lia|discriminate]]|]);
    rewrite lookup_singleton; case_decide;
    [intros [= <-]; subst; first [lia | split; [lia|discriminate]]|discriminate] ].

Ltac solve_every_dial :=
  cbv zeta;
  repeat lazymatch goal with
         | |- every_dial _ (bind _ _) =>
             apply every_dial_bind; [solve [solve_quiet]|intros ?]
         end;
  apply every_dial_dial;
  [ intros ? ?; solve [solve_quiet]
  | intros ? ? ? ?; unfold well_formed_dial;
    cbn [d_call d_heap d_modem c_statusCodes c_file c_hijack c_openStdin
         c_isStream c_method];
    split; [assumption|]; split; [assumption|]; split; [table_sane|];
    split; [intros ?; first [reflexivity | congruence]
           |intros [?|?]; first [reflexivity | congruence]] ].

Lemma invoke_every_dial (t : transport) (m : method) (this : value)
    (args : list value) :
  every_dial (well_formed_dial this) (invoke t m this args).
Proof.
  destruct m; cbn [invoke];
    unfold Exec_create, Exec_start, Exec_resize, Exec_status, ExecManager_create,
      ContainerFs_info, ContainerFs_get, ContainerFs_put, Container_status,
      Container_top, Container_logs, Container_changes, Container_export,
      Container_stats, Container_resize, Container_start, Container_stop,
      Container_restart, Container_kill, Container_update, Container_rename,
      Container_pause, Container_unpause, Container_attach, Container_wsattach,
      Container_wait, Container_delete, Container_commit, default_list,
      default_create, default_prune, descriptor;
    solve_every_dial.
Qed.

(** X1.  Whatever the method, the handle, the arguments and the answer of
    the transport, a call dials at most once; the two [get]s never dial. *)
Theorem at_most_one_dial (t : transport) (m : method) (this : value)
    (args : list value) (st : state) :
  (length (dialed t m this args st) ≤ 1)%nat
  ∧ st_dials (default_get this args st).2 = st_dials st
  ∧ st_dials (ExecManager_get this args st).2 = st_dials st.
Proof.
  split; [|split].
  - unfold dialed.
    destruct (invoke_rejects_on_error t m this args st) as (new & -> & Hlen & _).
    by rewrite drop_app_length.
  - assert (quiet (default_get this args)) as Hq
      by (unfold default_get; cbv zeta; solve_quiet).
    apply Hq.
  - assert (quiet (ExecManager_get this args)) as Hq
      by (unfold ExecManager_get; cbv zeta; solve_quiet).
    apply Hq.
Qed.

(** X2.  Every dial of every method is made on the [Modem] held by the
    [modem] property of the object the method was called on, and carries a
    table that accepts at least one code, accepts only codes below 400 and
    gives reasons only to 4xx and 5xx codes; a file is attached only to a
    PUT, and [hijack] and [openStdin] only occur in stream requests. *)
Theorem dials_are_well_formed (t : transport) (m : method) (this : value)
    (args : list value) (st : state) (ev : dial_event) :
  ev ∈ dialed t m this args st → well_formed_dial this ev.
Proof.
  unfold dialed.
  destruct (invoke_every_dial t m this args st) as (new & -> & HP).
  rewrite drop_app_length. intros Hev. by eapply Forall_forall in HP.
Qed.

Lemma dials_are_well_formed_witness :
  well_formed_dial (VRef 4)
    (Dial (VRef 0)
       (Call "/containers/abc/archive?" PUT VUndefined true None None (Some (VStr "tar"))
          {[ 200%Z := Accept; 400%Z := Reason "bad request";
             403%Z := Reason "permission denied";
             404%Z := Reason "no such container"; 500%Z := Reason "server error" ]})
       example_heap).
Proof.
  apply (dials_are_well_formed quiet_daemon M_ContainerFs_put (VRef 4)
           [VStr "tar"] (State example_heap [])).
  vm_compute. constructor.
Defined.

(** * Further properties: what the simple methods resolve with *)

Section Settles.

Variable t : transport.

Lemma settles_with_bind {A} G (m : M A) (f : A → M outcome) :
  quiet m → (∀ a, settles_with t G (f a)) → settles_with t G (bind m f).
Proof.
  intros Hm Hf st. rewrite bind_run. specialize (Hm st).
  destruct (m st) as [[a|s] st']; cbn [snd] in Hm.
  - destruct (Hf a st') as (new & Hd & Hlen & Hres). exists new. by rewrite <- Hm.
  - exists []. cbn [snd fst length]. rewrite app_nil_r. split; [done|].
    split; [lia|]. intros ev Hev. by apply elem_of_nil in Hev.
Qed.

Lemma settles_with_dial G (this : value) (c : call) (cb : value → value → M outcome) :
  (∀ e d st, cb e d st = (Val (G e d), st)) →
  settles_with t G (dial t this c cb).
Proof.
  intros Hcb st. unfold dial. rewrite bind_run, at_site_run.
  assert (∀ (r : res outcome) (st0 : state), st_dials st0 = st_dials st →
            ∃ new : list dial_event,
              st_dials st0 = st_dials st ++ new ∧ (length new ≤ 1)%nat
              ∧ ∀ ev, ev ∈ new →
                  r = Val (G (r_err (answer t ev)) (r_data (answer t ev))))
    as Hnone.
  { intros r st0 Hst0. exists []. rewrite app_nil_r. split; [done|].
    split; [cbn; lia|]. intros ev Hev. by apply elem_of_nil in Hev. }
  destruct (get_prop this "modem" st) as [[modem|s] st0] eqn:Hget.
  - apply get_prop_readable in Hget as [_ ->]. rewrite bind_run, at_site_run.
    destruct (dial_method modem st) as [[[]|s] st0] eqn:Hdm.
    + assert (st0 = st) as ->.
      { unfold dial_method in Hdm. repeat case_match; by simplify_eq. }
      rewrite bind_run. cbv beta iota zeta. rewrite at_site_run, Hcb.
      exists [Dial modem c (st_heap st)]. cbn [fst snd st_dials].
      split; [done|]. split; [done|].
      intros ev Hev%list_elem_of_singleton. by subst ev.
    + apply Hnone. unfold dial_method in Hdm. repeat case_match; by simplify_eq.
  - apply Hnone. pose proof (quiet_get_prop this "modem" st) as Hsame.
    by rewrite Hget in Hsame.
Qed.

Ltac solve_settles :=
  cbv zeta;
  repeat lazymatch goal with
         | |- settles_with _ _ (bind _ _) =>
             apply settles_with_bind; [solve [solve_quiet]|intros ?]
         end;
  apply settles_with_dial; intros ? ? ?; by rewrite settle_run.

Lemma invoke_settles (m : method) (f : value → value) (this : value)
    (args : list value) :
  resolution m = Some f →
  settles_with t (fun e d => if truthy e then Rejected e else Resolved (f d))
    (invoke t m this args).
Proof.
  intros Hf.
  destruct m; try discriminate Hf; injection Hf as <-; cbn [invoke];
    unfold Exec_start, Exec_resize, ContainerFs_info, ContainerFs_get, ContainerFs_put,
      Container_top, Container_logs, Container_changes, Container_stats,
      Container_resize, Container_wait, Container_delete, default_prune, descriptor;
    solve_settles.
Qed.

End Settles.

(** X3.  [top], [logs], [changes], [stats], [resize], [wait], [prune],
    [Exec.start] and the three archive methods settle with what the
    transport delivered and nothing else: rejected with its error, or
    resolved with its data, untouched ([wait] resolves with the decoded
    body, not with a number taken from it); [delete] and [Exec.resize]
    resolve with [null] whatever the data. *)
Theorem simple_methods_settle (t : transport) (m : method) (f : value → value)
    (this : value) (args : list value) (st : state) (ev : dial_event) :
  resolution m = Some f →
  ev ∈ dialed t m this args st →
  (invoke t m this args st).1
  = Val (if truthy (r_err (answer t ev))
         then Rejected (r_err (answer t ev))
         else Resolved (f (r_data (answer t ev)))).
Proof.
  intros Hf. unfold dialed.
  destruct (invoke_settles t m f this args Hf st) as (new & -> & _ & Hres).
  rewrite drop_app_length. apply Hres.
Qed.

Lemma simple_methods_settle_witness :
  (invoke inventory_daemon M_wait (VRef 2) [] (State example_heap [])).1
  = Val (Resolved (VRef 7)).
Proof.
  apply (simple_methods_settle inventory_daemon M_wait (fun data => data) (VRef 2) []
           (State example_heap [])
           (Dial (VRef 0)
              (descriptor "/containers/abc/wait?" POST (VRef 6)
                 {[ 200%Z := Accept; 404%Z := Reason "no such container";
                    500%Z := Reason "server error" ]})
              (example_heap ++ [Obj KPlain ∅]))).
  - reflexivity.
  - vm_compute. constructor.
Defined.

(** * Further properties: options *)

Lemma get_prop_total v name st :
  (∃ x, get_prop v name st = (Val x, st)) ∨ get_prop v name st = (Exn InCall, st).
Proof.
  unfold get_prop. destruct v; try (by right); try (by left; eexists).
  destruct (st_heap st !! l); [left; by eexists|by right].
Qed.

(** Run the reads of a method body that come before its first use of
    [opts]. *)
Ltac read_step :=
  rewrite bind_run;
  lazymatch goal with
  | |- context [get_prop VNull ?n ?st] => cbn [get_prop]
  | |- context [set_prop VNull ?n ?x ?st] => cbn [set_prop]
  | |- context [get_prop ?v ?n ?st] =>
      destruct (get_prop_total v n st) as [[? ->]| ->]
  | |- context [interpolate ?v ?st] => rewrite (surjective_pairing st) at 1;
      destruct st; rewrite interpolate_run
  | |- context [ret ?v ?st] => rewrite ret_run
  end; cbv beta iota; try reflexivity.

(** X4.  [Exec.start], [ContainerFs.get], [export], [attach] and [commit]
    called with [null] as options: the default [{}] only replaces
    [undefined], so reading or writing the property of [null] throws in
    the method body; no promise is made, nothing is dialed and the store
    is as before. *)
Theorem null_options_throw (t : transport) (m : method) (this : value)
    (args : list value) (st : state) :
  reads_options m = true →
  arg 0 args = VNull →
  invoke t m this args st = (Exn InCall, st).
Proof.
  intros Hm Harg. destruct st as [h ds].
  destruct m; try discriminate Hm; cbn [invoke];
    unfold Exec_start, ContainerFs_get, Container_export, Container_attach,
      Container_commit;
    rewrite Harg; cbn [default_obj]; repeat read_step.
Qed.

Lemma null_options_throw_witness :
  invoke quiet_daemon M_attach (VRef 2) [VNull] (State example_heap [])
  = (Exn InCall, State example_heap []).
Proof.
  exact (null_options_throw quiet_daemon M_attach (VRef 2) [VNull]
           (State example_heap []) eq_refl eq_refl).
Defined.

Lemma every_dial_ret_bind {A B} (P : dial_event → Prop) (a : B) (f : B → M A) :
  every_dial P (f a) → every_dial P (bind (ret a) f).
Proof. intros H st. apply H. Qed.

Ltac solve_options_dial :=
  cbv zeta;
  repeat lazymatch goal with
         | |- every_dial _ (bind (ret _) _) => apply every_dial_ret_bind
         | |- every_dial _ (bind _ _) =>
             apply every_dial_bind; [solve [solve_quiet]|intros ?]
         end;
  apply every_dial_dial; [intros ? ?; solve [solve_quiet]|intros ? ? _ _; done].

Lemma invoke_options_verbatim (t : transport) (m : method) (i : nat) (this : value)
    (args : list value) :
  options_argument m = Some i →
  (defaults_options m = true → arg 0 args ≠ VUndefined) →
  every_dial (fun ev => c_options (d_call ev) = arg i args
                        ∧ (m = M_ContainerFs_put → c_file (d_call ev) = Some (arg 0 args)))
    (invoke t m this args).
Proof.
  intros Hi Hdef.
  destruct m; try discriminate Hi; injection Hi as <-; cbn [invoke];
    unfold Exec_create, Exec_start, Exec_resize, Exec_status, ExecManager_create,
      ContainerFs_info, ContainerFs_get, ContainerFs_put, Container_status,
      Container_top, Container_logs, Container_export,
      Container_stats, Container_resize, Container_start, Container_stop,
      Container_restart, Container_kill, Container_update, Container_rename,
      Container_attach, Container_wsattach,
      Container_delete, Container_commit, default_list,
      default_create, default_prune, descriptor;
    try (specialize (Hdef eq_refl); destruct (arg 0 args) eqn:Harg; [done|..];
         cbn [default_obj]);
    solve_options_dial.
Qed.

(** X5.  The options a caller passes reach the transport as they are: the
    descriptor of every dial holds the very value given as [opts] (the
    second argument for [put], whose first is attached as [file]), for
    every method that takes options; for the methods declared with
    [opts = {}] this is so whenever the argument is not [undefined]. *)
Theorem options_are_passed_verbatim (t : transport) (m : method) (i : nat)
    (this : value) (args : list value) (st : state) (ev : dial_event) :
  options_argument m = Some i →
  (defaults_options m = true → arg 0 args ≠ VUndefined) →
  ev ∈ dialed t m this args st →
  c_options (d_call ev) = arg i args
  ∧ (m = M_ContainerFs_put → c_file (d_call ev) = Some (arg 0 args)).
Proof.
  intros Hi Hdef. unfold dialed.
  destruct (invoke_options_verbatim t m i this args Hi Hdef st) as (new & -> & HP).
  rewrite drop_app_length. intros Hev.
  by apply (proj1 (Forall_forall _ _) HP ev Hev).
Qed.

Lemma options_are_passed_verbatim_witness :
  let ev := Dial (VRef 0)
              (descriptor "/containers/abc/stop?" POST (VNum 5)
                 {[ 204%Z := Accept; 304%Z := Accept;
                    404%Z := Reason "no such container";
                    500%Z := Reason "server error" ]})
              example_heap in
  c_options (d_call ev) = VNum 5.
Proof.
  intros ev.
  apply (options_are_passed_verbatim quiet_daemon M_stop 0 (VRef 2) [VNum 5]
           (State example_heap []) ev eq_refl).
  - discriminate.
  - vm_compute. constructor.
Defined.

(** The log after a dial made on an object that holds a modem, whatever
    the callback does with the answer. *)
Lemma dial_ref_dials t l o lm pm c cb h ds :
  h !! l = Some o →
  o_props o !! "modem" = Some (VRef lm) →
  h !! lm = Some (Obj (KInstance CModem) pm) →
  (∀ e d, quiet (cb e d)) →
  st_dials (dial t (VRef l) c cb (State h ds)).2 = ds ++ [Dial (VRef lm) c h].
Proof.
  intros H Hm Hlm Hq. rewrite (dial_ref _ _ _ _ _ _ _ _ _ H Hm Hlm).
  by rewrite (quiet_at_site _ _ (Hq _ _)).
Qed.

(** Run a method body up to its dial. *)
Ltac exec_body :=
  repeat first
    [ rewrite bind_run | rewrite default_obj_run | rewrite interpolate_run
    | rewrite ret_run | rewrite alloc_run
    | erewrite get_prop_ref by heap_lookup
    | erewrite set_prop_fresh by reflexivity
    | progress cbv beta iota ].

Ltac dials_once :=
  cbn [snd]; erewrite dial_ref_dials;
  [ | heap_lookup | eassumption | heap_lookup | intros ? ?; solve [solve_quiet] ];
  rewrite drop_snoc_all; eexists; (split; [reflexivity|]);
  cbn [d_call d_heap descriptor c_options c_path c_method].

(** X6.  A method that takes no parameter ([changes], [pause], [unpause],
    [wait]) sends a new empty object as options, whatever arguments it is
    called with; [start], [export], [attach] and [Exec.start] called
    without options send a new empty object too, and [commit] a new object
    that holds only [container], the handle's [id]. *)
Theorem missing_options_are_fresh (t : transport) (h : heap) (ds : list dial_event)
    (l lm : loc) (o : object) (pm : gmap string value) (args : list value) :
  h !! l = Some o →
  o_props o !! "modem" = Some (VRef lm) →
  h !! lm = Some (Obj (KInstance CModem) pm) →
  (∀ m, fixed_options m = true →
     ∃ ev, dialed t m (VRef l) args (State h ds) = [ev]
       ∧ c_options (d_call ev) = VRef (length h)
       ∧ d_heap ev = h ++ [Obj KPlain ∅])
  ∧ (arg 0 args = VUndefined →
     (∀ m, m = M_start ∨ m = M_export ∨ m = M_attach ∨ m = M_Exec_start →
        ∃ ev, dialed t m (VRef l) args (State h ds) = [ev]
          ∧ c_options (d_call ev) = VRef (length h)
          ∧ d_heap ev = h ++ [Obj KPlain ∅])
     ∧ ∃ ev, dialed t M_commit (VRef l) args (State h ds) = [ev]
         ∧ c_options (d_call ev) = VRef (length h)
         ∧ d_heap ev
           = h ++ [Obj KPlain {[ "container" := default VUndefined (o_props o !! "id") ]}]).
Proof.
  intros H Hm Hlm. split; [|intros Harg; split].
  - intros m Hfix. unfold dialed.
    destruct m; try discriminate Hfix; cbn [invoke];
      unfold Container_changes, Container_pause, Container_unpause, Container_wait;
      cbv zeta; exec_body; dials_once; done.
  - intros m [->|[->|[->| ->]]]; unfold dialed; cbn [invoke];
      unfold Container_start, Container_export, Container_attach, Exec_start;
      rewrite Harg; cbv zeta; exec_body; dials_once; done.
  - unfold dialed. cbn [invoke]. unfold Container_commit. rewrite Harg. cbv zeta.
    exec_body. cbn [insert list_insert o_kind o_props]. exec_body.
    cbn [snd]. erewrite dial_ref_dials;
      [ | heap_lookup | eassumption | heap_lookup | intros ? ?; solve [solve_quiet] ].
    rewrite drop_snoc_all. eexists. split; [reflexivity|].
    cbn [d_call d_heap descriptor c_options]. split; [done|]. done.
Qed.

Lemma missing_options_are_fresh_witness :
  ∃ ev, dialed quiet_daemon M_pause (VRef 2) [VStr "ignored"] (State example_heap [])
        = [ev]
    ∧ c_options (d_call ev) = VRef 6
    ∧ d_heap ev = example_heap ++ [Obj KPlain ∅].
Proof.
  exact (proj1 (missing_options_are_fresh quiet_daemon example_heap [] 2 0
                  (Obj (KInstance CContainer) (Container_props 2 (VRef 0) (VStr "abc")))
                  ∅ [VStr "ignored"] eq_refl eq_refl eq_refl) M_pause eq_refl).
Defined.

(** * Further properties: handles built from a response *)

Lemma get_prop_readable_field h ds v name :
  readable h v → get_prop v name (State h ds) = (Val (field h v name), State h ds).
Proof.
  unfold readable, get_prop, field. destruct v; try done. cbn [st_heap].
  by intros [o ->].
Qed.

Lemma get_prop_nullish v name st : nullish v → get_prop v name st = (Exn InCall, st).
Proof. by intros [-> | ->]. Qed.

(** Split a run into its dial and what the callback then does. *)
Ltac dial_then_callback :=
  exec;
  let cb := fresh "cb" in
  let Hq := fresh "Hq" in
  match goal with
  | |- context [at_site InCallback ?k] => set (cb := at_site InCallback k)
  end;
  assert (quiet cb) as Hq by (subst cb; solve_quiet);
  eexists (Dial _ _ _); rewrite Hq; cbn [st_dials]; rewrite drop_snoc_all;
  (split; [reflexivity|]);
  unfold answer;
  cbn [d_call d_heap descriptor c_path c_method c_options c_isStream c_hijack
       c_openStdin];
  subst cb.

(** X7.  [status] dials GET [/containers/{id}/json?] and, without a
    transport error, resolves with a new [Container] that has the [modem]
    and the [id] of the handle it was called on and the transport's data
    as [data]: the [id] is never taken from the response, and the data is
    attached whatever it is. *)
Theorem status_resolves_with_a_new_handle (t : transport) (h : heap)
    (ds : list dial_event) (l lm : loc) (o : object) (pm : gmap string value)
    (args : list value) :
  h !! l = Some o →
  o_props o !! "modem" = Some (VRef lm) →
  h !! lm = Some (Obj (KInstance CModem) pm) →
  let id := default VUndefined (o_props o !! "id") in
  let run := Container_status t (VRef l) args (State h ds) in
  ∃ ev, dialed t M_status (VRef l) args (State h ds) = [ev]
    ∧ d_heap ev = h
    ∧ c_method (d_call ev) = GET
    ∧ c_path (d_call ev) = "/containers/" +:+ to_string h id +:+ "/json?"
    ∧ (truthy (r_err (answer t ev)) = false →
       let c := length (h ++ r_fresh (answer t ev)) in
       run.1 = Val (Resolved (VRef c))
       ∧ st_heap run.2
         = (h ++ r_fresh (answer t ev))
           ++ Obj (KInstance CContainer)
                  (<["data" := r_data (answer t ev)]> (Container_props c (VRef lm) id))
              :: Container_parts c (VRef lm)).
Proof.
  intros H Hm Hlm id run. subst run. unfold dialed. cbn [invoke].
  unfold Container_status. cbv zeta. dial_then_callback.
  split; [done|]. split; [done|]. split; [done|]. intros Herr.
  rewrite at_site_run, Herr. exec. known Hm. rewrite new_Container_run. exec.
  erewrite set_prop_fresh by reflexivity. cbn [insert list_insert o_kind o_props].
  by exec.
Qed.

Lemma status_resolves_with_a_new_handle_witness :
  (Container_status inventory_daemon (VRef 2) [] (State example_heap [])).1
  = Val (Resolved (VRef 9)).
Proof.
  destruct (status_resolves_with_a_new_handle inventory_daemon example_heap [] 2 0
              (Obj (KInstance CContainer) (Container_props 2 (VRef 0) (VStr "abc")))
              ∅ [] eq_refl eq_refl eq_refl) as (ev & _ & _ & _ & _ & Hres).
  exact (proj1 (Hres eq_refl)).
Defined.

(** X8.  [create] dials POST [/containers/create?] and, without a
    transport error, resolves with a new [Container] whose [id] is the
    [Id] property of the transport's data ([undefined] if there is none)
    and whose [data] is that data; if the data is [null] or [undefined],
    reading its [Id] throws in the callback and the promise is never
    settled. *)
Theorem create_resolves_with_the_new_container (t : transport) (h : heap)
    (ds : list dial_event) (l lm : loc) (o : object) (pm : gmap string value)
    (args : list value) :
  h !! l = Some o →
  o_props o !! "modem" = Some (VRef lm) →
  h !! lm = Some (Obj (KInstance CModem) pm) →
  let run := default_create t (VRef l) args (State h ds) in
  ∃ ev, dialed t M_create (VRef l) args (State h ds) = [ev]
    ∧ d_heap ev = h
    ∧ c_method (d_call ev) = POST
    ∧ c_path (d_call ev) = "/containers/create?"
    ∧ (truthy (r_err (answer t ev)) = false →
       let h1 := h ++ r_fresh (answer t ev) in
       let data := r_data (answer t ev) in
       (readable h1 data →
        run.1 = Val (Resolved (VRef (length h1)))
        ∧ st_heap run.2
          = h1 ++ Obj (KInstance CContainer)
                      (<["data" := data]>
                         (Container_props (length h1) (VRef lm) (field h1 data "Id")))
                  :: Container_parts (length h1) (VRef lm))
       ∧ (nullish data → run.1 = Exn InCallback)).
Proof.
  intros H Hm Hlm run. subst run. unfold dialed. cbn [invoke].
  unfold default_create. cbv zeta. dial_then_callback.
  split; [done|]. split; [done|]. split; [done|]. intros Herr.
  rewrite at_site_run, Herr. exec. known Hm. split.
  - intros Hread. rewrite (get_prop_readable_field _ _ _ _ Hread). exec.
    rewrite new_Container_run. exec.
    erewrite set_prop_fresh by reflexivity. cbn [insert list_insert o_kind o_props].
    by exec.
  - intros Hnull. by rewrite (get_prop_nullish _ _ _ Hnull).
Qed.

Lemma create_resolves_with_the_new_container_witness :
  let run := default_create commit_daemon (VRef 1) [] (State example_heap []) in
  run.1 = Val (Resolved (VRef 7))
  ∧ field (st_heap run.2) (VRef 7) "id" = VStr "sha256:0123abcd".
Proof.
  intros run.
  destruct (create_resolves_with_the_new_container commit_daemon example_heap [] 1 0
              (Obj (KInstance CManager) {[ "modem" := VRef 0 ]}) ∅ []
              eq_refl eq_refl eq_refl) as (ev & _ & Hh & _ & _ & Hres).
  unfold answer in Hres. rewrite Hh in Hres.
  destruct (proj1 (Hres eq_refl)) as [Hrun Hheap].
  - cbn. by eexists.
  - split; [exact Hrun|]. subst run. rewrite Hheap. reflexivity.
Defined.

(** X9.  [Exec.create], [ExecManager.create] and [Exec.status] build the
    handle they resolve with in the same way: a new [Exec] on the same
    [modem] and [container] as the object they were called on, whose [id]
    is the [Id] property of the transport's data and whose [data] is that
    data, in place of the [{}] the class starts with.  The two [create]s
    dial [/containers/{container.id}/exec?], [status] dials
    [/exec/{id}/json?].  Data that is [null] or [undefined] makes the
    callback throw. *)
Theorem exec_handles_come_from_the_response (t : transport) (h : heap)
    (ds : list dial_event) (l lm lc : loc) (o oc : object) (pm : gmap string value)
    (args : list value) (m : method) :
  h !! l = Some o →
  o_props o !! "modem" = Some (VRef lm) →
  h !! lm = Some (Obj (KInstance CModem) pm) →
  o_props o !! "container" = Some (VRef lc) →
  h !! lc = Some oc →
  m = M_Exec_create ∨ m = M_ExecManager_create ∨ m = M_Exec_status →
  ∃ ev, dialed t m (VRef l) args (State h ds) = [ev]
    ∧ d_heap ev = h
    ∧ c_path (d_call ev)
      = match m with
        | M_Exec_status =>
            "/exec/" +:+ to_string h (default VUndefined (o_props o !! "id")) +:+ "/json?"
        | _ =>
            "/containers/" +:+ to_string h (default VUndefined (o_props oc !! "id"))
            +:+ "/exec?"
        end
    ∧ (truthy (r_err (answer t ev)) = false →
       let h1 := h ++ r_fresh (answer t ev) in
       let data := r_data (answer t ev) in
       (readable h1 data →
        (invoke t m (VRef l) args (State h ds)).1 = Val (Resolved (VRef (length h1)))
        ∧ st_heap (invoke t m (VRef l) args (State h ds)).2
          = h1 ++ [ Obj (KInstance CExec)
                      (<["data" := data]>
                         (<["id" := field h1 data "Id"]>
                            (<["container" := VRef lc]>
                               (<["modem" := VRef lm]>
                                  (<["data" := VRef (length h1 + 1)]> ∅)))));
                    Obj KPlain ∅ ])
       ∧ (nullish data → (invoke t m (VRef l) args (State h ds)).1 = Exn InCallback)).
Proof.
  intros H Hm Hlm Hc Hlc Hmeth. unfold dialed.
  destruct Hmeth as [->|[->| ->]]; cbn [invoke];
    unfold Exec_create, ExecManager_create, Exec_status; cbv zeta;
    exec; try known Hc; dial_then_callback;
    (split; [done|]); (split; [done|]); intros Herr;
    rewrite at_site_run, Herr; exec; known Hm; known Hc; (split; [intros Hread|intros Hnull]);
    try (by rewrite (get_prop_nullish _ _ _ Hnull));
    rewrite (get_prop_readable_field _ _ _ _ Hread); exec;
    rewrite new_Exec_run; exec;
    erewrite set_prop_fresh by reflexivity;
    cbn [insert list_insert o_kind o_props Exec_objects]; by exec.
Qed.

Lemma exec_handles_come_from_the_response_witness :
  (invoke commit_daemon M_ExecManager_create (VRef 5) [] (State example_heap [])).1
  = Val (Resolved (VRef 7)).
Proof.
  destruct (exec_handles_come_from_the_response commit_daemon example_heap [] 5 0 2
              (Obj (KInstance CExecManager)
                   (<["container" := VRef 2]> (<["modem" := VRef 0]> ∅)))
              (Obj (KInstance CContainer) (Container_props 2 (VRef 0) (VStr "abc")))
              ∅ [] M_ExecManager_create eq_refl eq_refl eq_refl eq_refl eq_refl
              (or_intror (or_introl eq_refl))) as (ev & _ & Hh & _ & Hres).
  unfold answer in Hres. rewrite Hh in Hres.
  apply (proj1 (Hres eq_refl)). cbn. by eexists.
Defined.

(** * Further properties: the store only grows *)

Section Grows.

Lemma grows_pure {A} n (m : M A) (Q : A → Prop) :
  (∀ st, st_heap (m st).2 = st_heap st) →
  (∀ st a, (m st).1 = Val a → Q a) →
  grows n m Q.
Proof. intros Hh HQ st _. rewrite Hh. split; [done|]. split; [done|apply HQ]. Qed.

Lemma grows_ret {A} n (a : A) (Q : A → Prop) : Q a → grows n (ret a) Q.
Proof. intros HQ. apply grows_pure; [done|]. intros st a' [= <-]. done. Qed.

Lemma grows_weaken {A} n (m : M A) (Q R : A → Prop) :
  grows n m Q → (∀ a, Q a → R a) → grows n m R.
Proof.
  intros Hm HQR st Hn. destruct (Hm st Hn) as (Ht & Hl & HQ).
  split; [done|]. split; [done|]. auto.
Qed.

Lemma grows_bind {A B} n (m : M A) (f : A → M B) (Q : A → Prop) (R : B → Prop) :
  grows n m Q → (∀ a, Q a → grows n (f a) R) → grows n (bind m f) R.
Proof.
  intros Hm Hf st Hn. rewrite bind_run. destruct (Hm st Hn) as (Ht & Hl & HQ).
  destruct (m st) as [[a|s] st']; cbn [fst snd] in *; [|by split].
  destruct (Hf a (HQ a eq_refl) st') as (Ht' & Hl' & HR); [lia|].
  split; [congruence|]. split; [lia|done].
Qed.

Lemma grows_at_site {A} n s (m : M A) (Q : A → Prop) :
  grows n m Q → grows n (at_site s m) Q.
Proof.
  intros Hm st Hn. rewrite at_site_run. destruct (Hm st Hn) as (Ht & Hl & HQ).
  destruct (m st) as [[a|s'] st']; by repeat split.
Qed.

Lemma grows_alloc n o : grows n (alloc o) (fresh n).
Proof.
  intros st Hn. cbn [alloc fst snd st_heap]. split; [by rewrite take_app_le|].
  split; [rewrite length_app; lia|]. intros a [= <-]. by eexists.
Qed.

Lemma grows_get_prop n v name : grows n (get_prop v name) (λ _, True).
Proof. apply grows_pure; [|done]. intros st. unfold get_prop. by repeat case_match. Qed.

Lemma grows_dial_method n v : grows n (dial_method v) (λ _, True).
Proof. apply grows_pure; [|done]. intros st. unfold dial_method. by repeat case_match. Qed.

Lemma grows_interpolate n v : grows n (interpolate v) (λ _, True).
Proof. by apply grows_pure. Qed.

Lemma grows_array_elems n v : grows n (array_elems v) (λ _, True).
Proof. apply grows_pure; [|done]. intros st. unfold array_elems. by repeat case_match. Qed.

Lemma grows_stream_events n v : grows n (stream_events v) (λ _, True).
Proof. apply grows_pure; [|done]. intros st. unfold stream_events. by repeat case_match. Qed.

Lemma grows_default_obj n v : grows n (default_obj v) (λ _, True).
Proof.
  destruct v; try by apply grows_ret.
  eapply grows_weaken; [apply grows_alloc|done].
Qed.

(** Only a write to an object the call itself allocated keeps the store
    it started from. *)
Lemma grows_set_prop n v name x : fresh n v → grows n (set_prop v name x) (λ _, True).
Proof.
  intros (l & -> & Hl) st Hn. unfold set_prop.
  destruct (st_heap st !! l) as [o|] eqn:Ho; [|by repeat split].
  cbn [fst snd st_heap]. split; [by rewrite take_insert_ge|].
  split; [by rewrite length_insert|done].
Qed.

Lemma grows_new_Container n m i : grows n (new_Container m i) (fresh n).
Proof.
  intros [h ds] Hn. rewrite new_Container_run. cbn [fst snd st_heap] in *.
  split; [by rewrite take_app_le|]. split; [rewrite length_app; lia|].
  intros a [= <-]. by eexists.
Qed.

Lemma grows_new_Exec n m c i : grows n (new_Exec m c i) (fresh n).
Proof.
  intros [h ds] Hn. rewrite new_Exec_run. cbn [fst snd st_heap] in *.
  split; [by rewrite take_app_le|]. split; [rewrite length_app; lia|].
  intros a [= <-]. by eexists.
Qed.

Lemma grows_mapM {A B} n (f : A → M B) l :
  (∀ a, grows n (f a) (λ _, True)) → grows n (mapM f l) (λ _, True).
Proof.
  intros Hf. induction l as [|a l IH]; cbn [mapM]; [by apply grows_ret|].
  eapply grows_bind; [apply Hf|]. intros b _.
  eapply grows_bind; [apply IH|]. intros bs _. by apply grows_ret.
Qed.

Lemma grows_dial t n this c cb :
  (∀ e d, grows n (cb e d) (λ _, True)) → grows n (dial t this c cb) (λ _, True).
Proof.
  intros Hcb. unfold dial.
  eapply grows_bind; [apply grows_at_site, grows_get_prop|]. intros modem _.
  eapply grows_bind; [apply grows_at_site, grows_dial_method|]. intros _ _.
  eapply grows_bind with (Q := λ r, True).
  - intros st Hn. cbn [fst snd st_heap]. split; [by rewrite take_app_le|].
    split; [rewrite length_app; lia|done].
  - intros r _. apply grows_at_site, Hcb.
Qed.

End Grows.

Ltac grows_step :=
  lazymatch goal with
  | |- grows _ (ret _) _ => by apply grows_ret
  | |- grows _ (dial _ _ _ _) _ => apply grows_dial; intros ? ?
  | |- grows _ (if ?b then _ else _) _ => destruct b
  | |- grows _ (bind (mapM _ _) _) _ =>
      eapply grows_bind; [apply grows_mapM; intros ?|intros ? ?]
  | |- grows _ (bind (alloc _) _) _ =>
      eapply grows_bind; [apply grows_alloc|intros ? ?]
  | |- grows _ (bind (new_Container _ _) _) _ =>
      eapply grows_bind; [apply grows_new_Container|intros ? ?]
  | |- grows _ (bind (new_Exec _ _ _) _) _ =>
      eapply grows_bind; [apply grows_new_Exec|intros ? ?]
  | |- grows _ (bind (set_prop _ _ _) _) _ =>
      eapply grows_bind; [apply grows_set_prop; assumption|intros ? ?]
  | |- grows _ (bind _ _) _ =>
      eapply grows_bind;
      [first [ apply grows_get_prop | apply grows_interpolate
             | apply grows_default_obj | apply grows_array_elems
             | apply grows_stream_events ]
      |intros ? ?]
  end.

Lemma invoke_grows (t : transport) (n : nat) (m : method) (this : value)
    (args : list value) :
  m ≠ M_commit → grows n (invoke t m this args) (λ _, True).
Proof.
  intros Hm.
  destruct m; try done; cbn [invoke];
    unfold Exec_create, Exec_start, Exec_resize, Exec_status, ExecManager_create,
      ContainerFs_info, ContainerFs_get, ContainerFs_put, Container_status,
      Container_top, Container_logs, Container_changes, Container_export,
      Container_stats, Container_resize, Container_start, Container_stop,
      Container_restart, Container_kill, Container_update, Container_rename,
      Container_pause, Container_unpause, Container_attach, Container_wsattach,
      Container_wait, Container_delete, default_list,
      default_create, default_prune, descriptor;
    cbv zeta; repeat grows_step.
Qed.

(** X10.  No method other than [commit] writes to an object that existed
    before the call: whatever the arguments and the answer, the store after
    the call is the store before it followed by the objects allocated
    meanwhile.  So a snapshot or an options record a caller holds is never
    changed behind its back, and an [Exec] keeps its [container]. *)
Theorem store_only_grows (t : transport) (m : method) (this : value)
    (args : list value) (st : state) :
  m ≠ M_commit →
  ∃ ext, st_heap (invoke t m this args st).2 = st_heap st ++ ext.
Proof.
  intros Hm.
  destruct (invoke_grows t (length (st_heap st)) m this args Hm st) as (Ht & Hl & _);
    [done|].
  exists (drop (length (st_heap st)) (st_heap (invoke t m this args st).2)).
  rewrite <- (take_drop (length (st_heap st)) (st_heap (invoke t m this args st).2)) at 1.
  f_equal. rewrite Ht. by apply take_ge.
Qed.

Lemma store_only_grows_witness :
  ∃ ext, st_heap (invoke inventory_daemon M_list (VRef 1) [] (State example_heap [])).2
         = example_heap ++ ext.
Proof.
  apply (store_only_grows inventory_daemon M_list (VRef 1) [] (State example_heap [])).
  discriminate.
Defined.

(** * Further properties: [list] and a bad element *)

Lemma mapM_handles_throws (this : value) (elems : list value) :
  (∃ conf, conf ∈ elems ∧ nullish conf) →
  ∀ st, ∃ s st',
    mapM (fun conf =>
            m <- get_prop this "modem" ;;
            id <- get_prop conf "Id" ;;
            container <- new_Container m id ;;
            do set_prop container "data" conf ;;
            ret container) elems st
    = (Exn s, st').
Proof.
  induction elems as [|a elems IH]; intros (conf & Hin & Hnull) st.
  - by apply elem_of_nil in Hin.
  - cbn [mapM]. rewrite bind_run.
    match goal with |- context [bind ?g ?k st] =>
      destruct (bind g k st) as [[b|s] st'] eqn:Hf end; [|by eexists _, _].
    assert (¬ nullish a) as Ha.
    { intros Ha. rewrite bind_run in Hf.
      destruct (get_prop_total this "modem" st) as [[x Hx]|Hx]; rewrite Hx in Hf;
        [|done].
      cbv beta iota in Hf. by rewrite bind_run, (get_prop_nullish _ _ _ Ha) in Hf. }
    apply elem_of_cons in Hin as [->|Hin]; [done|].
    destruct (IH (ex_intro _ conf (conj Hin Hnull)) st') as (s & st'' & Hrest).
    rewrite bind_run, Hrest. by eexists _, _.
Qed.

(** X11.  If the array [list] is answered with holds a [null] or an
    [undefined] anywhere, reading that element's [Id] throws inside the
    callback: the dial was made, no error was reported, and the promise is
    neither resolved nor rejected. *)
Theorem list_throws_on_a_null_element (t : transport) (h : heap)
    (ds : list dial_event) (l lm : loc) (o : object) (pm : gmap string value)
    (args : list value) :
  h !! l = Some o →
  o_props o !! "modem" = Some (VRef lm) →
  h !! lm = Some (Obj (KInstance CModem) pm) →
  ∃ ev, dialed t M_list (VRef l) args (State h ds) = [ev]
    ∧ d_heap ev = h
    ∧ (truthy (r_err (answer t ev)) = false →
       ∀ la elems p conf,
         r_data (answer t ev) = VRef la →
         (h ++ r_fresh (answer t ev)) !! la = Some (Obj (KArray elems) p) →
         conf ∈ elems → nullish conf →
         (default_list t (VRef l) args (State h ds)).1 = Exn InCallback).
Proof.
  intros H Hm Hlm. unfold dialed. cbn [invoke]. unfold default_list. cbv zeta.
  dial_then_callback. split; [done|].
  intros Herr la elems p conf Hla Harr Hin Hnull.
  rewrite at_site_run, Herr, bind_run, Hla.
  rewrite (array_elems_ref _ _ _ _ _ Harr). cbv beta iota. rewrite bind_run.
  match goal with |- context [mapM ?f elems ?st] =>
    destruct (mapM_handles_throws (VRef l) elems
                (ex_intro _ conf (conj Hin Hnull)) st) as (s & st' & ->) end.
  done.
Qed.

Lemma list_throws_on_a_null_element_witness :
  let daemon : transport :=
    fun _ h => Response VNull (VRef (length h))
                 [Obj (KArray [VRef (length h + 1); VNull]) ∅;
                  Obj KPlain {[ "Id" := VStr "zz" ]}] in
  (default_list daemon (VRef 1) [] (State example_heap [])).1 = Exn InCallback.
Proof.
  intros daemon.
  destruct (list_throws_on_a_null_element daemon example_heap [] 1 0
              (Obj (KInstance CManager) {[ "modem" := VRef 0 ]}) ∅ []
              eq_refl eq_refl eq_refl) as (ev & _ & Hh & Hres).
  unfold answer in Hres. rewrite Hh in Hres.
  apply (Hres eq_refl 6 [VRef 7; VNull] ∅ VNull eq_refl eq_refl).
  - right. constructor.
  - by right.
Defined.

(** * Further properties: what [export] buffers *)

Lemma append_nil_r (s : string) : s +:+ "" = s.
Proof. induction s as [|c s IH]; [done|]. by rewrite append_cons, IH. Qed.

Lemma append_assoc (a b c : string) : (a +:+ b) +:+ c = a +:+ (b +:+ c).
Proof. induction a as [|x a IH]; [done|]. by rewrite !append_cons, IH. Qed.

(** [res.join('')] is the concatenation of the pieces. *)
Lemma join_concat (l : list string) : join "" l = foldr String.append "" l.
Proof.
  destruct l as [|s l]; [done|]. cbn [join foldr]. revert s.
  induction l as [|x l IH]; intros s; cbn [fold_left foldr].
  - by rewrite append_nil_r.
  - rewrite IH, append_nil_l. by rewrite append_assoc.
Qed.

Lemma consume_chunks chunks rest acc :
  consume ((SData <$> chunks) ++ SEnd :: rest) acc
  = Resolved (VStr (join "" (acc ++ chunks))).
Proof.
  revert acc. induction chunks as [|c chunks IH]; intros acc; cbn.
  - by rewrite app_nil_r.
  - rewrite IH. by rewrite <- app_assoc.
Qed.

Lemma consume_without_end events acc : SEnd ∉ events → consume events acc = Pending.
Proof.
  revert acc. induction events as [|[chunk|] events IH]; intros acc Hno; cbn.
  - done.
  - apply IH. intros Hin. apply Hno. by right.
  - exfalso. apply Hno. by left.
Qed.

(** X12.  [export] with [opts.stream] set, answered with a stream and no
    error: if the stream emits the chunks [chunks] and then ends, the
    promise resolves with their texts concatenated in the order they came,
    and whatever the stream emits after its first ['end'] changes nothing;
    if the stream never ends, the promise stays pending. *)
Theorem export_buffers_in_order (t : transport) (h : heap) (ds : list dial_event)
    (l lo lm : loc) (o oo : object) (pm : gmap string value) :
  h !! l = Some o →
  o_props o !! "modem" = Some (VRef lm) →
  h !! lm = Some (Obj (KInstance CModem) pm) →
  h !! lo = Some oo →
  truthy (default VUndefined (o_props oo !! "stream")) = true →
  let run := Container_export t (VRef l) [VRef lo] (State h ds) in
  ∃ ev, dialed t M_export (VRef l) [VRef lo] (State h ds) = [ev]
    ∧ d_heap ev = h
    ∧ c_isStream (d_call ev) = true
    ∧ (truthy (r_err (answer t ev)) = false →
       ∀ ls events p,
         r_data (answer t ev) = VRef ls →
         (h ++ r_fresh (answer t ev)) !! ls = Some (Obj (KStream events) p) →
         (∀ chunks rest, events = (SData <$> chunks) ++ SEnd :: rest →
            run.1 = Val (Resolved (VStr (foldr String.append "" chunks))))
         ∧ (SEnd ∉ events → run.1 = Val Pending)).
Proof.
  intros H Hm Hlm Hlo Hs run.
  destruct (export_modes t h ds l lo lm o oo pm H Hm Hlm Hlo)
    as (ev & Hd & Hh & Hstream & Hres).
  exists ev. split; [done|]. split; [done|]. split; [by rewrite Hstream|].
  intros Herr ls events p Hls Hev.
  destruct (Hres Herr) as [_ Hrun]. specialize (Hrun Hs ls events p Hls Hev).
  subst run. rewrite Hrun. split.
  - intros chunks rest ->. by rewrite consume_chunks, app_nil_l, join_concat.
  - intros Hno. by rewrite consume_without_end.
Qed.

Lemma export_buffers_in_order_witness :
  (Container_export tar_daemon (VRef 2) [VRef 6]
     (State (example_heap ++ [Obj KPlain {[ "stream" := VBool true ]}]) [])).1
  = Val (Resolved (VStr "abcd")).
Proof.
  pose proof (export_buffers_in_order tar_daemon
                (example_heap ++ [Obj KPlain {[ "stream" := VBool true ]}]) [] 2 6 0
                _ _ ∅ eq_refl eq_refl eq_refl eq_refl) as Hexport.
  destruct (Hexport eq_refl) as (ev & _ & Hh & Hs & Hres).
  unfold answer in Hres. rewrite Hh in Hres.
  assert (c_isStream (d_call ev) = true) as Hs' by exact Hs.
  unfold tar_daemon in Hres. rewrite Hs' in Hres.
  exact (proj1 (Hres eq_refl 7 [SData "ab"; SData "cd"; SEnd] ∅ eq_refl eq_refl)
           ["ab"; "cd"] [] eq_refl).
Defined.

(** * Further properties: calls one after the other *)

(** X13.  A handle is as usable after a call as before it: whatever
    method was called on it first, with whatever arguments and outcome
    ([delete] included, which leaves no mark on the handle), a following
    [status] or [delete] dials once more, on the same modem, with the path
    made from the same [id]. *)
Theorem handle_stays_usable (t : transport) (h : heap) (ds : list dial_event)
    (l lm : loc) (o : object) (pm : gmap string value) (s : string)
    (m1 m2 : method) (args1 args2 : list value) :
  h !! l = Some o →
  o_props o !! "modem" = Some (VRef lm) →
  h !! lm = Some (Obj (KInstance CModem) pm) →
  o_props o !! "id" = Some (VStr s) →
  m2 = M_status ∨ m2 = M_delete →
  let st1 := (invoke t m1 (VRef l) args1 (State h ds)).2 in
  ∃ ev, dialed t m2 (VRef l) args2 st1 = [ev]
    ∧ d_modem ev = VRef lm
    ∧ c_path (d_call ev)
      = "/containers/" +:+ s +:+ match m2 with M_status => "/json?" | _ => "?" end.
Proof.
  intros H Hm Hlm Hid Hm2 st1.
  destruct (invoke_framed t (length h) m1 (VRef l) args1 (State h ds)) as [[_ Hfr] _];
    [done|].
  fold st1 in Hfr. destruct st1 as [h1 ds1]. cbn [st_heap snd] in Hfr.
  destruct (Hfr l o (lookup_lt_Some _ _ _ H) H) as (o' & Ho' & _ & Hp).
  destruct (Hfr lm _ (lookup_lt_Some _ _ _ Hlm) Hlm) as ([k pm'] & Hlm' & Hk & _).
  cbn in Hk. subst k.
  assert (o_props o' !! "modem" = Some (VRef lm)) as Hm' by (by rewrite Hp).
  assert (o_props o' !! "id" = Some (VStr s)) as Hid' by (by rewrite Hp).
  unfold dialed.
  destruct Hm2 as [-> | ->]; cbn [invoke]; unfold Container_status, Container_delete;
    cbv zeta; exec; known Hid'; rewrite ?to_string_str.
  - dial_then_callback. by rewrite ?to_string_str.
  - one_dial. by rewrite ?to_string_str.
Qed.

Lemma handle_stays_usable_witness :
  ∃ ev, dialed quiet_daemon M_delete (VRef 2) []
          (invoke quiet_daemon M_delete (VRef 2) [] (State example_heap [])).2 = [ev]
    ∧ d_modem ev = VRef 0
    ∧ c_path (d_call ev) = "/containers/abc?".
Proof.
  exact (handle_stays_usable quiet_daemon example_heap [] 2 0
           (Obj (KInstance CContainer) (Container_props 2 (VRef 0) (VStr "abc")))
           ∅ "abc" M_delete M_delete [] [] eq_refl eq_refl eq_refl eq_refl
           (or_intror eq_refl)).
Defined.

(** The run of a successful [create], as an equation. *)
Lemma default_create_run (t : transport) (h : heap) (ds : list dial_event)
    (l lm : loc) (o : object) (pm : gmap string value) (args : list value) :
  h !! l = Some o →
  o_props o !! "modem" = Some (VRef lm) →
  h !! lm = Some (Obj (KInstance CModem) pm) →
  let c := descriptor "/containers/create?" POST (arg 0 args)
             {[ 200%Z := Accept; 201%Z := Accept; 400%Z := Reason "bad request";
                404%Z := Reason "no such image"; 406%Z := Reason "impossible to attach";
                500%Z := Reason "server error" ]} in
  let h1 := h ++ r_fresh (t c h) in
  truthy (r_err (t c h)) = false →
  readable h1 (r_data (t c h)) →
  default_create t (VRef l) args (State h ds)
  = (Val (Resolved (VRef (length h1))),
     State (h1 ++ Obj (KInstance CContainer)
                    (<["data" := r_data (t c h)]>
                       (Container_props (length h1) (VRef lm)
                          (field h1 (r_data (t c h)) "Id")))
               :: Container_parts (length h1) (VRef lm))
           (ds ++ [Dial (VRef lm) c h])).
Proof.
  intros H Hm Hlm c h1 Herr Hread. unfold default_create. cbv zeta. exec.
  fold c. rewrite at_site_run, Herr. exec. known Hm. fold h1.
  rewrite (get_prop_readable_field _ _ _ _ Hread). exec.
  rewrite new_Container_run. exec.
  erewrite set_prop_fresh by reflexivity. cbn [insert list_insert o_kind o_props].
  by exec.
Qed.

(** X14.  [create] followed by [get] with the [Id] the daemon returned:
    the two handles are different objects with the same [id] and the same
    [modem], so every path and dial made from one is made from the other;
    only the handle from [create] holds the snapshot. *)
Theorem create_then_get (t : transport) (h : heap) (ds : list dial_event)
    (l lm : loc) (o : object) (pm : gmap string value) (args : list value) :
  h !! l = Some o →
  o_props o !! "modem" = Some (VRef lm) →
  h !! lm = Some (Obj (KInstance CModem) pm) →
  let created := default_create t (VRef l) args (State h ds) in
  ∃ ev, dialed t M_create (VRef l) args (State h ds) = [ev]
    ∧ d_heap ev = h
    ∧ (truthy (r_err (answer t ev)) = false →
       let h1 := h ++ r_fresh (answer t ev) in
       let data := r_data (answer t ev) in
       readable h1 data →
       let got := default_get (VRef l) [field h1 data "Id"] created.2 in
       ∃ c c',
         created.1 = Val (Resolved (VRef c)) ∧ got.1 = Val (VRef c') ∧ c ≠ c'
         ∧ st_dials got.2 = st_dials created.2
         ∧ field (st_heap got.2) (VRef c') "id" = field (st_heap got.2) (VRef c) "id"
         ∧ field (st_heap got.2) (VRef c') "modem" = field (st_heap got.2) (VRef c) "modem"
         ∧ field (st_heap got.2) (VRef c) "data" = data
         ∧ field (st_heap got.2) (VRef c') "data" = VUndefined).
Proof.
  intros H Hm Hlm created. subst created.
  set (c := descriptor "/containers/create?" POST (arg 0 args)
              {[ 200%Z := Accept; 201%Z := Accept; 400%Z := Reason "bad request";
                 404%Z := Reason "no such image"; 406%Z := Reason "impossible to attach";
                 500%Z := Reason "server error" ]}).
  exists (Dial (VRef lm) c h). split.
  { unfold dialed. cbn [invoke]. unfold default_create. cbv zeta.
    cbn [snd st_dials]. erewrite dial_ref_dials;
      [ | heap_lookup | eassumption | heap_lookup | intros ? ?; solve [solve_quiet] ].
    by rewrite drop_snoc_all. }
  split; [done|]. unfold answer. cbn [d_call d_heap].
  intros Herr Hread.
  rewrite (default_create_run t h ds l lm o pm args H Hm Hlm Herr Hread). fold c.
  set (h1 := h ++ r_fresh (t c h)) in *.
  set (data := r_data (t c h)) in *.
  set (objs := Obj (KInstance CContainer)
                 (<["data" := data]>
                    (Container_props (length h1) (VRef lm) (field h1 data "Id")))
               :: Container_parts (length h1) (VRef lm)).
  cbn [fst snd]. unfold default_get. cbn [arg nth]. cbv zeta.
  assert ((h1 ++ objs) !! l = Some o) as Hl2
    by (subst h1; do 2 apply lookup_app_l_Some; done).
  exec. known Hm. rewrite new_Container_run.
  exists (length h1), (length (h1 ++ objs)). cbn [fst snd st_heap st_dials].
  split; [done|]. split; [done|].
  split; [rewrite length_app; subst objs; cbn; lia|]. split; [done|].
  assert (((h1 ++ objs)
           ++ Container_objects (length (h1 ++ objs)) (VRef lm) (field h1 data "Id"))
          !! length h1 = objs !! 0) as Hc.
  { rewrite lookup_app_l by (rewrite length_app; subst objs; cbn; lia).
    apply lookup_ext_0. }
  set (i := field h1 data "Id") in *. unfold field. rewrite Hc, lookup_ext_0.
  subst objs. done.
Qed.

Lemma create_then_get_witness :
  let created := default_create commit_daemon (VRef 1) [] (State example_heap []) in
  let got := default_get (VRef 1) [VStr "sha256:0123abcd"] created.2 in
  ∃ c c',
    created.1 = Val (Resolved (VRef c)) ∧ got.1 = Val (VRef c') ∧ c ≠ c'
    ∧ field (st_heap got.2) (VRef c') "id" = field (st_heap got.2) (VRef c) "id".
Proof.
  intros created got.
  destruct (create_then_get commit_daemon example_heap [] 1 0
              (Obj (KInstance CManager) {[ "modem" := VRef 0 ]}) ∅ []
              eq_refl eq_refl eq_refl) as (ev & _ & Hh & Hres).
  unfold answer in Hres. rewrite Hh in Hres.
  destruct (Hres eq_refl) as (c & c' & H1 & H2 & H3 & _ & H4 & _).
  - cbn. by eexists.
  - exists c, c'. split; [exact H1|]. split; [exact H2|]. split; [exact H3|exact H4].
Defined.

(** * Further properties: the identifier of a committed image *)

Lemma remove_first_prefix pat x : remove_first pat (pat +:+ x) = x.
Proof.
  assert (strip_prefix pat (pat +:+ x) = Some x) as H by (by apply strip_prefix_Some).
  destruct (pat +:+ x); cbn [remove_first]; by rewrite H.
Qed.

Lemma remove_first_absent pat s :
  (∀ pre post, s ≠ pre +:+ pat +:+ post) → remove_first pat s = s.
Proof.
  intros Hno. destruct (remove_first_correct pat s) as [(pre & post & Hs & _)|[_ Hr]].
  - by apply Hno in Hs.
  - done.
Qed.

(** [commit] with an options record, answered with no error and an
    object: what is left to run is the making of the image. *)
Lemma commit_callback_run (t : transport) (h : heap) (ds : list dial_event)
    (l lo lm lr : loc) (o oo or : object) (pm : gmap string value) :
  h !! l = Some o →
  o_props o !! "modem" = Some (VRef lm) →
  h !! lm = Some (Obj (KInstance CModem) pm) →
  h !! lo = Some oo →
  let id := default VUndefined (o_props o !! "id") in
  let h1 := <[lo := Obj (o_kind oo) (<["container" := id]> (o_props oo))]> h in
  let c := descriptor "/commit?" POST (VRef lo)
             {[ 201%Z := Accept; 404%Z := Reason "no such container";
                500%Z := Reason "server error" ]} in
  truthy (r_err (t c h1)) = false →
  r_data (t c h1) = VRef lr →
  (h1 ++ r_fresh (t c h1)) !! lr = Some or →
  Container_commit t (VRef l) [VRef lo] (State h ds)
  = at_site InCallback
      (iid <- replace_sha256 (default VUndefined (o_props or !! "Id")) ;;
       image <- new_Image (VRef lm) iid ;;
       ret (Resolved image))
      (State (h1 ++ r_fresh (t c h1)) (ds ++ [Dial (VRef lm) c h1])).
Proof.
  intros H Hm Hlm Hlo id h1 c Herr Hlr Hor.
  unfold Container_commit. cbn [arg nth]. cbv zeta. exec.
  rewrite (set_prop_ref _ _ _ _ _ _ Hlo). fold id h1.
  assert (h1 !! lo = Some (Obj (o_kind oo) (<["container" := id]> (o_props oo)))) as Hlo1.
  { subst h1. by rewrite list_lookup_insert_eq by (by eapply lookup_lt_Some). }
  assert (∀ l' o', h !! l' = Some o' →
            ∃ o1, h1 !! l' = Some o1 ∧ o_kind o1 = o_kind o'
                  ∧ o_props o1 !! "modem" = o_props o' !! "modem") as Hkeep.
  { intros l' o' Ho'. destruct (decide (lo = l')) as [<-|Hne].
    - rewrite Hlo1. eexists. split; [done|]. simplify_eq. split; [done|].
      cbn. by rewrite lookup_insert_ne.
    - exists o'. subst h1. by rewrite list_lookup_insert_ne. }
  destruct (Hkeep l o H) as (o1 & Hl1 & _ & Hm1). rewrite Hm in Hm1.
  destruct (Hkeep lm _ Hlm) as ([k1 pm1] & Hlm1 & Hk1 & _). cbn in Hk1. subst k1.
  exec. fold c. rewrite !at_site_run, Herr. exec. known Hm1. rewrite Hlr. by exec.
Qed.

(** X15.  The identifier of the image [commit] resolves with, by the [Id]
    of the response: a digest ["sha256:" + x] gives [x]; a string without
    ["sha256:"] is kept as it is; and when [Id] is missing or not a string,
    [replace] cannot be called on it, the callback throws and the promise
    is never settled. *)
Theorem commit_image_identifier (t : transport) (h : heap) (ds : list dial_event)
    (l lo lm : loc) (o oo : object) (pm : gmap string value) :
  h !! l = Some o →
  o_props o !! "modem" = Some (VRef lm) →
  h !! lm = Some (Obj (KInstance CModem) pm) →
  h !! lo = Some oo →
  let id := default VUndefined (o_props o !! "id") in
  let h1 := <[lo := Obj (o_kind oo) (<["container" := id]> (o_props oo))]> h in
  let c := descriptor "/commit?" POST (VRef lo)
             {[ 201%Z := Accept; 404%Z := Reason "no such container";
                500%Z := Reason "server error" ]} in
  let run := Container_commit t (VRef l) [VRef lo] (State h ds) in
  truthy (r_err (t c h1)) = false →
  ∀ lr or,
    r_data (t c h1) = VRef lr →
    (h1 ++ r_fresh (t c h1)) !! lr = Some or →
    let n := length (h1 ++ r_fresh (t c h1)) in
    (∀ x, o_props or !! "Id" = Some (VStr ("sha256:" +:+ x)) →
       run.1 = Val (Resolved (VRef n)) ∧ field (st_heap run.2) (VRef n) "id" = VStr x)
    ∧ (∀ s, o_props or !! "Id" = Some (VStr s) →
         (∀ pre post, s ≠ pre +:+ "sha256:" +:+ post) →
         run.1 = Val (Resolved (VRef n)) ∧ field (st_heap run.2) (VRef n) "id" = VStr s)
    ∧ ((∀ s, o_props or !! "Id" ≠ Some (VStr s)) → run.1 = Exn InCallback).
Proof.
  intros H Hm Hlm Hlo id h1 c run Herr lr or Hlr Hor n. subst run.
  rewrite (commit_callback_run t h ds l lo lm lr o oo or pm H Hm Hlm Hlo Herr Hlr Hor).
  fold id h1 c. subst n. rewrite at_site_run. split; [|split].
  - intros x Hid. known Hid. cbn [replace_sha256]. exec. rewrite new_Image_run. exec.
    cbn [fst snd st_heap]. split; [done|]. unfold field.
    rewrite lookup_fresh. cbn. by rewrite remove_first_prefix.
  - intros s Hid Hno. known Hid. cbn [replace_sha256]. exec. rewrite new_Image_run.
    exec. cbn [fst snd st_heap]. split; [done|]. unfold field.
    rewrite lookup_fresh. cbn. by rewrite remove_first_absent.
  - intros Hnot. destruct (o_props or !! "Id") as [[| | | |s|]|] eqn:Hid;
      cbn [default from_option id replace_sha256]; try (by rewrite bind_run).
    by destruct (Hnot s).
Qed.

Lemma commit_image_identifier_witness :
  let run := Container_commit commit_daemon (VRef 2) [VRef 6]
               (State example_heap_with_opts []) in
  run.1 = Val (Resolved (VRef 8))
  ∧ field (st_heap run.2) (VRef 8) "id" = VStr "0123abcd".
Proof.
  intros run.
  exact (proj1 (commit_image_identifier commit_daemon example_heap_with_opts [] 2 6 0
                  (Obj (KInstance CContainer) (Container_props 2 (VRef 0) (VStr "abc")))
                  (Obj KPlain {[ "container" := VStr "other"; "repo" := VStr "r" ]})
                  ∅ eq_refl eq_refl eq_refl eq_refl eq_refl 7
                  (Obj KPlain {[ "Id" := VStr "sha256:0123abcd" ]}) eq_refl eq_refl)
           "0123abcd" eq_refl).
Defined.

(** * Further properties: interactive streams *)

(** X16.  [attach] and [wsattach] resolve, when the transport reports no
    error, with a new two-element array: the transport's data first, the
    handle itself second.  [attach] asks for a stream and copies
    [opts.stdin] into [openStdin]; [wsattach] asks for neither. *)
Theorem attach_resolves_with_a_pair (t : transport) (h : heap) (ds : list dial_event)
    (l lm : loc) (o : object) (pm : gmap string value) (args : list value)
    (m : method) :
  h !! l = Some o →
  o_props o !! "modem" = Some (VRef lm) →
  h !! lm = Some (Obj (KInstance CModem) pm) →
  m = M_attach ∨ m = M_wsattach →
  arg 0 args = VUndefined ∨ is_object h (arg 0 args) →
  ∃ ev, dialed t m (VRef l) args (State h ds) = [ev]
    ∧ c_isStream (d_call ev) = match m with M_attach => true | _ => false end
    ∧ c_openStdin (d_call ev)
      = match m with
        | M_attach => Some (field (d_heap ev) (c_options (d_call ev)) "stdin")
        | _ => None
        end
    ∧ (truthy (r_err (answer t ev)) = false →
       let h1 := d_heap ev ++ r_fresh (answer t ev) in
       (invoke t m (VRef l) args (State h ds)).1 = Val (Resolved (VRef (length h1)))
       ∧ st_heap (invoke t m (VRef l) args (State h ds)).2
         = h1 ++ [Obj (KArray [r_data (answer t ev); VRef l]) ∅]).
Proof.
  intros H Hm Hlm Hmeth Hopts. unfold dialed.
  destruct Hmeth as [-> | ->]; cbn [invoke]; unfold Container_attach, Container_wsattach;
    cbv zeta.
  - destruct Hopts as [->|(lo & oo & -> & Hlo)]; dial_then_callback;
      (split; [done|]);
      (split; [unfold field; first [by rewrite lookup_fresh | by rewrite Hlo]|]);
      intros Herr; rewrite at_site_run, Herr; by exec.
  - dial_then_callback. split; [done|]. split; [done|].
    intros Herr. rewrite at_site_run, Herr. by exec.
Qed.

Lemma attach_resolves_with_a_pair_witness :
  let run := invoke inventory_daemon M_attach (VRef 2) [] (State example_heap []) in
  run.1 = Val (Resolved (VRef 10))
  ∧ (o_kind <$> st_heap run.2 !! 10) = Some (KArray [VRef 7; VRef 2]).
Proof.
  intros run.
  destruct (attach_resolves_with_a_pair inventory_daemon example_heap [] 2 0
              (Obj (KInstance CContainer) (Container_props 2 (VRef 0) (VStr "abc")))
              ∅ [] M_attach eq_refl eq_refl eq_refl (or_introl eq_refl)
              (or_introl eq_refl)) as (ev & Hd & _ & _ & Hres).
  vm_compute in Hd. injection Hd as <-.
  destruct (Hres eq_refl) as [Hrun Hheap].
  split; [exact Hrun|]. subst run. rewrite Hheap. reflexivity.
Defined.

(** X17.  [Exec.start] called with an options record dials POST
    [/exec/{id}/start?] as a stream request and copies [opts.hijack] and
    [opts.stdin] into the descriptor's [hijack] and [openStdin]
    ([undefined] where the record has none); its table accepts exactly 200
    and knows 404 and 409 only, so it has no entry for 500. *)
Theorem exec_start_descriptor (t : transport) (h : heap) (ds : list dial_event)
    (l lm lo : loc) (o oo : object) (pm : gmap string value) :
  h !! l = Some o →
  o_props o !! "modem" = Some (VRef lm) →
  h !! lm = Some (Obj (KInstance CModem) pm) →
  h !! lo = Some oo →
  ∃ ev, dialed t M_Exec_start (VRef l) [VRef lo] (State h ds) = [ev]
    ∧ c_method (d_call ev) = POST
    ∧ c_path (d_call ev)
      = "/exec/" +:+ to_string h (default VUndefined (o_props o !! "id")) +:+ "/start?"
    ∧ c_options (d_call ev) = VRef lo
    ∧ c_isStream (d_call ev) = true
    ∧ c_hijack (d_call ev) = Some (default VUndefined (o_props oo !! "hijack"))
    ∧ c_openStdin (d_call ev) = Some (default VUndefined (o_props oo !! "stdin"))
    ∧ (∀ code, c_statusCodes (d_call ev) !! code = Some Accept ↔ code = 200%Z)
    ∧ (∀ code, is_reason (c_statusCodes (d_call ev) !! code)
               ↔ code = 404%Z ∨ code = 409%Z).
Proof.
  intros H Hm Hlm Hlo. unfold dialed. cbn [invoke]. unfold Exec_start.
  cbn [arg nth]. exec. one_dial. repeat (split; [done|]).
  split; intros code; table.
Qed.

Lemma exec_start_descriptor_witness :
  ∃ ev, dialed quiet_daemon M_Exec_start (VRef 6) [VRef 8]
          (State (example_heap ++ Exec_objects 6 (VRef 0) (VRef 2) (VStr "e1")
                  ++ [Obj KPlain {[ "hijack" := VBool true; "stdin" := VBool true ]}]) [])
        = [ev]
    ∧ c_path (d_call ev) = "/exec/e1/start?"
    ∧ c_hijack (d_call ev) = Some (VBool true)
    ∧ c_openStdin (d_call ev) = Some (VBool true).
Proof.
  destruct (exec_start_descriptor quiet_daemon
              (example_heap ++ Exec_objects 6 (VRef 0) (VRef 2) (VStr "e1")
               ++ [Obj KPlain {[ "hijack" := VBool true; "stdin" := VBool true ]}])
              [] 6 0 8 _ _ ∅ eq_refl eq_refl eq_refl eq_refl)
    as (ev & Hd & _ & Hp & _ & _ & Hh & Hs & _).
  exists ev. split; [exact Hd|]. split; [exact Hp|]. split; [exact Hh|exact Hs].
Defined.
